(** * Game cover resolver: a shallow embedding of the lookup pipeline

    The development follows the single source file of the repository
    (the page component holding [fetchGameCoverFromRAWG],
    [fetchGameCoverFromTheGamesDB], [getIGDBAccessToken],
    [fetchGameCoverFromIGDB] and [processGames]).

    Conventions of the embedding:
    - JavaScript strings are [string]; [toLowerCase] acts on the ASCII
      letters, which is all the platform tables contain;
    - JavaScript numbers that carry identifiers are [Z];
    - an optional property ([x?: T], or one the code tests before use) is an
      [option];
    - [async] code is a state-and-exception monad over the list of observable
      events (network exchanges, delays, console lines, toasts) and the
      component state; the network is an oracle from the history and the
      request to the response. *)

From Stdlib Require Import String Ascii List ZArith NArith Bool Lia DecimalString.
Import ListNotations.

Local Open Scope string_scope.

(** ** JavaScript primitives used by the code *)

Module JS.

(** [c.toLowerCase()] on one code unit: [A]..[Z] are moved to [a]..[z]. *)
Definition toLowerAscii (c : ascii) : ascii :=
  let n := N_of_ascii c in
  if (65 <=? n)%N && (n <=? 90)%N then ascii_of_N (n + 32) else c.

(** [s.toLowerCase()] *)
Fixpoint toLowerCase (s : string) : string :=
  match s with
  | EmptyString => EmptyString
  | String c s' => String (toLowerAscii c) (toLowerCase s')
  end.

(** Truthiness of a string: only the empty string is falsy. *)
Definition truthy (s : string) : bool :=
  match s with
  | EmptyString => false
  | String _ _ => true
  end.

(** Truthiness of an optional string ([undefined] is falsy). *)
Definition truthy_opt (o : option string) : bool :=
  match o with
  | None => false
  | Some s => truthy s
  end.

(** [s.includes(sub)] *)
Fixpoint includes (s sub : string) : bool :=
  String.prefix sub s
  || match s with
     | EmptyString => false
     | String _ s' => includes s' sub
     end.

(** [n.toString()] and [`${n}`] for an integer. *)
Definition toString (z : Z) : string := NilZero.string_of_int (Z.to_int z).

(** [`${x}`] for an optional string: [undefined] prints as its name. *)
Definition template_opt (o : option string) : string :=
  match o with
  | None => "undefined"
  | Some s => s
  end.

(** [xs.join(sep)] on strings. *)
Fixpoint join (sep : string) (xs : list string) : string :=
  match xs with
  | [] => EmptyString
  | [x] => x
  | x :: rest => x ++ sep ++ join sep rest
  end.

(** The double quote character, as a one-character string. *)
Definition dquote : string := String (ascii_of_N 34) EmptyString.

(** Lookup in the own properties of an object literal, in source order. *)
Fixpoint own {A : Type} (props : list (string * A)) (key : string) : option A :=
  match props with
  | [] => None
  | (k, v) :: rest => if String.eqb k key then Some v else own rest key
  end.

(** What a property read finds on [Object.prototype], the prototype of every
    object literal: a built-in function (with its [length]) or, under
    [__proto__], the prototype object itself. All of them are truthy. *)
Inductive Inherited : Type :=
| BuiltinFunction (length : nat)
| PrototypeObject.

Definition Object_prototype : list (string * Inherited) :=
  [ ("constructor", BuiltinFunction 1);
    ("__defineGetter__", BuiltinFunction 2);
    ("__defineSetter__", BuiltinFunction 2);
    ("hasOwnProperty", BuiltinFunction 1);
    ("__lookupGetter__", BuiltinFunction 1);
    ("__lookupSetter__", BuiltinFunction 1);
    ("isPrototypeOf", BuiltinFunction 1);
    ("propertyIsEnumerable", BuiltinFunction 1);
    ("toString", BuiltinFunction 0);
    ("valueOf", BuiltinFunction 0);
    ("toLocaleString", BuiltinFunction 0);
    ("__proto__", PrototypeObject) ].

(** Errors that the code throws or that the runtime raises. *)
Inductive Error : Type :=
| ErrorMsg (message : string)      (* [new Error(message)] *)
| TypeError (message : string)     (* property of null, or calling a non-function *)
| SyntaxError (message : string)   (* [JSON.parse] / [response.json()] *)
| FetchFailed.                     (* [fetch] rejected: network error *)

(** [err.message]; every value thrown in this program is an [Error]. *)
Definition error_message (e : Error) : string :=
  match e with
  | ErrorMsg m => m
  | TypeError m => m
  | SyntaxError m => m
  | FetchFailed => "Failed to fetch"
  end.

Inductive Result (A : Type) : Type :=
| Ok (a : A)
| Throw (e : Error).
Arguments Ok {A} a.
Arguments Throw {A} e.

End JS.

Import JS.

(** ** The three static platform tables *)

Definition PlatformTable : Type := list (string * list Z).

(* Platform mapping for RAWG API *)
Definition PLATFORM_MAPPING : PlatformTable :=
  [ ("microsoft windows", [4]);
    ("microsoft xbox 360", [14]);
    ("microsoft xbox", [80]);
    ("nintendo 3ds", [8]);
    ("nintendo 64", [83]);
    ("nintendo ds", [9]);
    ("nintendo gamecube", [11]);
    ("nintendo switch", [7]);
    ("nintendo wii u", [10]);
    ("nintendo wii", [10]);
    ("sega dreamcast", [106]);
    ("sega saturn", [107]);
    ("sony playstation 2", [15]);
    ("sony playstation 3", [16]);
    ("sony playstation 4", [18]);
    ("sony playstation 5", [187]);
    ("sony playstation portable", [17]);
    ("sony playstation vita", [19]);
    ("sony playstation", [27]) ]%Z.

(* Platform mapping for TheGamesDB API *)
Definition TGDB_PLATFORM_MAPPING : PlatformTable :=
  [ ("microsoft windows", [1]);
    ("microsoft xbox 360", [15]);
    ("microsoft xbox", [14]);
    ("nintendo 3ds", [4912]);
    ("nintendo 64", [3]);
    ("nintendo ds", [12]);
    ("nintendo gamecube", [2]);
    ("nintendo switch", [4971]);
    ("nintendo wii u", [38]);
    ("nintendo wii", [9]);
    ("sega dreamcast", [16]);
    ("sega saturn", [17]);
    ("sony playstation 2", [8]);
    ("sony playstation 3", [4911]);
    ("sony playstation 4", [4919]);
    ("sony playstation 5", [4980]);
    ("sony playstation portable", [13]);
    ("sony playstation vita", [39]);
    ("sony playstation", [10]) ]%Z.

(* Platform mapping for IGDB API *)
Definition IGDB_PLATFORM_MAPPING : PlatformTable :=
  [ ("microsoft windows", [6]);
    ("microsoft xbox 360", [12]);
    ("microsoft xbox", [11]);
    ("nintendo 3ds", [37]);
    ("nintendo 64", [4]);
    ("nintendo ds", [20]);
    ("nintendo gamecube", [21]);
    ("nintendo switch", [130]);
    ("nintendo wii u", [41]);
    ("nintendo wii", [5]);
    ("sega dreamcast", [23]);
    ("sega saturn", [32]);
    ("sony playstation 2", [8]);
    ("sony playstation 3", [9]);
    ("sony playstation 4", [48]);
    ("sony playstation 5", [167]);
    ("sony playstation portable", [38]);
    ("sony playstation vita", [46]);
    ("sony playstation", [7]) ]%Z.

(** The value bound to [platformIds]: the table's own array, the default
    [[]], or a member of [Object.prototype] that the read reached through the
    prototype chain (the tables are plain object literals). *)
Inductive PlatformIds : Type :=
| IdList (ids : list Z)
| FromPrototype (v : Inherited).

(** [TABLE[key] || []]: every own value is an array, hence truthy; so is
    every inherited member; only a miss on both gives [undefined]. *)
Definition lookupPlatformIds (table : PlatformTable) (key : string) : PlatformIds :=
  match own table key with
  | Some ids => IdList ids
  | None =>
      match own Object_prototype key with
      | Some v => FromPrototype v
      | None => IdList []
      end
  end.

(** [platformIds.length > 0]; a missing [length] is [undefined], and
    [undefined > 0] is false. *)
Definition length_gt0 (p : PlatformIds) : bool :=
  match p with
  | IdList ids => negb (Nat.eqb (List.length ids) 0)
  | FromPrototype (BuiltinFunction n) => negb (Nat.eqb n 0)
  | FromPrototype PrototypeObject => false
  end.

(** [platformIds.join(",")]: only arrays have [join]. *)
Definition join_ids (p : PlatformIds) : Result string :=
  match p with
  | IdList ids => Ok (join "," (map toString ids))
  | FromPrototype _ => Throw (TypeError "platformIds.join is not a function")
  end.

(** [platformIds.includes(x)]. Each use is guarded by [length_gt0] and comes
    after [join_ids] has succeeded, so only the array case is ever reached. *)
Definition includes_id (p : PlatformIds) (x : Z) : bool :=
  match p with
  | IdList ids => existsb (Z.eqb x) ids
  | FromPrototype _ => false
  end.

(** ** Data model: the interfaces of the source *)

(** A property of an object held in memory: not there, there with the value
    [undefined], or there with a string. *)
Inductive Field : Type :=
| Absent
| Undefined
| Str (s : string).

(** [interface GameItem]. The validation loop of [processGames] rejects an
    element whose [title] or [systemName] is missing or empty alike
    ([!game.title]); the model writes a missing one as the empty string. *)
Record GameItem : Type := mkGameItem {
  title : string;
  systemName : string;
  imageUrl : Field
}.

Record RAWGPlatformInfo : Type := mkRAWGPlatformInfo {
  rawg_platform_id : Z;
  rawg_platform_name : string
}.

Record RAWGPlatformRef : Type := mkRAWGPlatformRef {
  rawg_platform : RAWGPlatformInfo
}.

(** [interface RAWGGame]; [background_image] is [None] for [null]. *)
Record RAWGGame : Type := mkRAWGGame {
  rawg_id : Z;
  rawg_name : string;
  background_image : option string;
  rawg_platforms : option (list RAWGPlatformRef)
}.

Record RAWGResponse : Type := mkRAWGResponse {
  results : option (list RAWGGame)
}.

Record TGDBImageRef : Type := mkTGDBImageRef {
  filename : string;
  resolution : string
}.

Record TGDBBoxart : Type := mkTGDBBoxart {
  front : option TGDBImageRef;
  back : option TGDBImageRef
}.

(** [interface TheGamesDBGame] *)
Record TheGamesDBGame : Type := mkTheGamesDBGame {
  tgdb_id : Z;
  game_title : string;
  release_date : option string;
  tgdb_platform : Z;
  boxart : option TGDBBoxart
}.

Record TheGamesDBData : Type := mkTheGamesDBData {
  count : Z;
  games : option (list TheGamesDBGame)
}.

Record TheGamesDBResponse : Type := mkTheGamesDBResponse {
  tgdb_data : option TheGamesDBData
}.

(** One entry of [TheGamesDBImageData.data]: image kind to image list; the
    code reads the kinds [boxart] and [screenshots]. *)
Record TGDBGameImages : Type := mkTGDBGameImages {
  images_boxart : option (list TGDBImageRef);
  images_screenshots : option (list TGDBImageRef)
}.

(** [interface TheGamesDBImageData]; [data] is keyed by the game id printed
    in decimal. *)
Record TheGamesDBImageData : Type := mkTheGamesDBImageData {
  base_url : string;
  images_data : option (list (string * TGDBGameImages))
}.

Record IGDBCover : Type := mkIGDBCover {
  cover_id : Z;
  cover_url : option string;
  image_id : string
}.

(** [interface IGDBGame] *)
Record IGDBGame : Type := mkIGDBGame {
  igdb_id : Z;
  igdb_name : string;
  cover : option IGDBCover;
  igdb_platforms : option (list Z)
}.

Record IGDBAuthResponse : Type := mkIGDBAuthResponse {
  access_token : option string;
  expires_in : Z;
  token_type : string
}.

(* API Type *)
Inductive ApiType : Type := rawg | thegamesdb | igdb.

(** ** The network boundary *)

Inductive Method : Type := GET | POST.

Inductive RequestBody : Type :=
| NoBody
| TextBody (text : string)
| JsonBody (fields : list (string * string)).

(** A call of [fetch]. [params] is the [URLSearchParams] appended to [url]
    after a question mark, kept as its ordered list of pairs. *)
Record Request : Type := mkRequest {
  method : Method;
  url : string;
  params : list (string * string);
  headers : list (string * string);
  body : RequestBody
}.

(** What [response.json()] can give: one of the payload shapes the code
    expects, JSON [null], or some other JSON value with none of the
    properties read by the code. *)
Inductive Payload : Type :=
| PayloadNull
| PayloadOther
| PayloadRAWG (r : RAWGResponse)
| PayloadTGDB (r : TheGamesDBResponse)
| PayloadTGDBImages (r : TheGamesDBImageData)
| PayloadIGDBAuth (r : IGDBAuthResponse)
| PayloadIGDBGames (r : list IGDBGame).

Inductive ResponseBody : Type :=
| InvalidJson (parser_message : string)
| Json (p : Payload).

Record HttpResponse : Type := mkHttpResponse {
  status : Z;
  response_body : ResponseBody
}.

(** [response.ok]: the status is in the range 200..299. *)
Definition ok (r : HttpResponse) : bool :=
  ((200 <=? status r) && (status r <=? 299))%Z.

Inductive Response : Type :=
| NetworkError
| Http (r : HttpResponse).

(** ** Observable events and the component state *)

Inductive Event : Type :=
| EvFetch (req : Request) (resp : Response)
| EvDelay (ms : Z)
| EvConsoleError (message : string)
| EvToast (toast_title description : string) (destructive : bool).

(** The [useState] cells that [processGames] writes. *)
Record UI : Type := mkUI {
  outputJson : list GameItem;
  isProcessing : bool;
  error : string;
  processedCount : nat;
  totalCount : nat
}.

(** The state threaded through a run: the events so far, the component
    state, and the local array [gamesWithCovers] of [processGames], which the
    loop body mutates with [push]. *)
Record State : Type := mkState {
  events : list Event;
  ui : UI;
  gamesWithCovers : list GameItem
}.

(** The values [processGames] closes over. [inputJson] is given by what
    [JSON.parse] makes of the text. *)
Inductive Parsed : Type :=
| ParseFailure
| NotAnArray
| ParsedArray (items : list GameItem).

Record Env : Type := mkEnv {
  inputJson : Parsed;
  activeApi : ApiType;
  rawgApiKey : string;
  tgdbApiKey : string;
  igdbClientId : string;
  igdbClientSecret : string
}.

(** ** The monad of asynchronous code: state and exceptions *)

Definition M (A : Type) : Type := State -> Result A * State.

Definition ret {A : Type} (a : A) : M A := fun st => (Ok a, st).

Definition throw {A : Type} (e : Error) : M A := fun st => (Throw e, st).

Definition bind {A B : Type} (m : M A) (k : A -> M B) : M B :=
  fun st =>
    match m st with
    | (Ok a, st') => k a st'
    | (Throw e, st') => (Throw e, st')
    end.

(** [try { m } catch (error) { h error }] *)
Definition try_catch {A : Type} (m : M A) (h : Error -> M A) : M A :=
  fun st =>
    match m st with
    | (Ok a, st') => (Ok a, st')
    | (Throw e, st') => h e st'
    end.

(** [try { m } finally { f }] *)
Definition try_finally {A : Type} (m : M A) (f : M unit) : M A :=
  fun st =>
    let (r, st') := m st in
    match f st' with
    | (Ok _, st'') => (r, st'')
    | (Throw e, st'') => (Throw e, st'')
    end.

(** Lifting of a pure step that may raise. *)
Definition lift {A : Type} (r : Result A) : M A := fun st => (r, st).

Declare Scope async_scope.
Delimit Scope async_scope with async.
Notation "x <- m ;; k" := (bind m (fun x => k))
  (at level 100, m at next level, right associativity) : async_scope.
Notation "m ;;; k" := (bind m (fun _ => k))
  (at level 100, right associativity) : async_scope.
Local Open Scope async_scope.

Definition emit (e : Event) : M unit :=
  fun st => (Ok tt, mkState (events st ++ [e]) (ui st) (gamesWithCovers st)).

Definition modify_ui (f : UI -> UI) : M unit :=
  fun st => (Ok tt, mkState (events st) (f (ui st)) (gamesWithCovers st)).

(** [const gamesWithCovers = []] and [gamesWithCovers.push(item)] *)
Definition gamesWithCovers_new : M unit :=
  fun st => (Ok tt, mkState (events st) (ui st) []).

Definition gamesWithCovers_push (item : GameItem) : M unit :=
  fun st => (Ok tt, mkState (events st) (ui st) (gamesWithCovers st ++ [item])).

Definition gamesWithCovers_read : M (list GameItem) :=
  fun st => (Ok (gamesWithCovers st), st).

Definition console_error (message : string) : M unit :=
  emit (EvConsoleError message).

Definition toast (t d : string) (destructive : bool) : M unit :=
  emit (EvToast t d destructive).

(** [await new Promise((resolve) => setTimeout(resolve, delay))] *)
Definition sleep (ms : Z) : M unit := emit (EvDelay ms).

Definition setOutputJson (v : list GameItem) : M unit :=
  modify_ui (fun u => mkUI v (isProcessing u) (error u) (processedCount u) (totalCount u)).
Definition setIsProcessing (v : bool) : M unit :=
  modify_ui (fun u => mkUI (outputJson u) v (error u) (processedCount u) (totalCount u)).
Definition setError (v : string) : M unit :=
  modify_ui (fun u => mkUI (outputJson u) (isProcessing u) v (processedCount u) (totalCount u)).
Definition setProcessedCount (v : nat) : M unit :=
  modify_ui (fun u => mkUI (outputJson u) (isProcessing u) (error u) v (totalCount u)).
Definition setTotalCount (v : nat) : M unit :=
  modify_ui (fun u => mkUI (outputJson u) (isProcessing u) (error u) (processedCount u) v).

(** ** Candidate selection (the "best match" blocks of the three providers) *)

(** [game.platforms?.some((p) => platformIds.includes(p.platform.id))] *)
Definition rawg_on_platform (platformIds : PlatformIds) (game : RAWGGame) : bool :=
  match rawg_platforms game with
  | None => false
  | Some ps => existsb (fun p => includes_id platformIds (rawg_platform_id (rawg_platform p))) ps
  end.

(** [fetchGameCoverFromRAWG], from [let bestMatch = data.results[0]] to the
    end of the [if (exactMatch) ... else ...]; [first] is [data.results[0]]. *)
Definition bestMatchRAWG (title : string) (platformIds : PlatformIds)
    (first : RAWGGame) (data_results : list RAWGGame) : RAWGGame :=
  let bestMatch := first in
  let exactMatch :=
    find (fun game => String.eqb (toLowerCase (rawg_name game)) (toLowerCase title)) data_results in
  match exactMatch with
  | Some exact => exact
  | None =>
      if length_gt0 platformIds then
        let platformMatch := find (rawg_on_platform platformIds) data_results in
        match platformMatch with
        | Some pm => pm
        | None => bestMatch
        end
      else bestMatch
  end.

(** The same block of [fetchGameCoverFromTheGamesDB]; a candidate carries one
    platform number: [platformIds.includes(game.platform)]. *)
Definition bestMatchTGDB (title : string) (platformIds : PlatformIds)
    (first : TheGamesDBGame) (data_games : list TheGamesDBGame) : TheGamesDBGame :=
  let bestMatch := first in
  let exactMatch :=
    find (fun game => String.eqb (toLowerCase (game_title game)) (toLowerCase title)) data_games in
  match exactMatch with
  | Some exact => exact
  | None =>
      if length_gt0 platformIds then
        let platformMatch :=
          find (fun game => includes_id platformIds (tgdb_platform game)) data_games in
        match platformMatch with
        | Some pm => pm
        | None => bestMatch
        end
      else bestMatch
  end.

(** [game.platforms?.some((platformId) => platformIds.includes(platformId))] *)
Definition igdb_on_platform (platformIds : PlatformIds) (game : IGDBGame) : bool :=
  match igdb_platforms game with
  | None => false
  | Some ps => existsb (fun platformId => includes_id platformIds platformId) ps
  end.

(** The same block of [fetchGameCoverFromIGDB]. *)
Definition bestMatchIGDB (title : string) (platformIds : PlatformIds)
    (first : IGDBGame) (games : list IGDBGame) : IGDBGame :=
  let bestMatch := first in
  let exactMatch :=
    find (fun game => String.eqb (toLowerCase (igdb_name game)) (toLowerCase title)) games in
  match exactMatch with
  | Some exact => exact
  | None =>
      if length_gt0 platformIds then
        let platformMatch := find (igdb_on_platform platformIds) games in
        match platformMatch with
        | Some pm => pm
        | None => bestMatch
        end
      else bestMatch
  end.

(** The shape shared by the three blocks: [name] reads the display name and
    [plat_is] is the provider's platform test. Each block is an instance of
    it (lemmas [bestMatchRAWG_generic] and its siblings). *)
Definition generic_best {A : Type} (name : A -> string) (plat_is : A -> bool)
    (title : string) (platformIds : PlatformIds) (first : A) (l : list A) : A :=
  match find (fun c => String.eqb (toLowerCase (name c)) (toLowerCase title)) l with
  | Some exact => exact
  | None =>
      if length_gt0 platformIds then
        match find plat_is l with
        | Some pm => pm
        | None => first
        end
      else first
  end.

(** ** Image resolution for TheGamesDB *)

(** The body of [if (gameImages.boxart) { ... }]: [Some url] where the code
    returns, [None] where it falls through to the screenshots. *)
Definition boxartUrl (imagesData_base_url : string) (gameImages : TGDBGameImages)
    : option string :=
  match images_boxart gameImages with
  | None => None
  | Some gameImages_boxart =>
      let frontBoxart :=
        find (fun img => includes (filename img) "front") gameImages_boxart in
      match frontBoxart with
      | Some img => Some (imagesData_base_url ++ "/boxart/front/" ++ filename img)
      | None =>
          (* If no specific front boxart, use the first boxart *)
          match gameImages_boxart with
          | first :: _ => Some (imagesData_base_url ++ "/boxart/front/" ++ filename first)
          | [] => None
          end
      end
  end.

(** From [const gameImages = ...] to the end of that block; the empty string
    stands for reaching the last [return] of the function, which gives it. *)
Definition gameImagesUrl (imagesData_base_url : string) (gameImages : TGDBGameImages)
    : string :=
  match boxartUrl imagesData_base_url gameImages with
  | Some u => u
  | None =>
      (* If no boxart, try screenshots *)
      match images_screenshots gameImages with
      | Some (first :: _) => imagesData_base_url ++ "/screenshots/" ++ filename first
      | _ => EmptyString
      end
  end.

(** ** Reading the payloads *)

Definition null_property (prop : string) : Error :=
  TypeError ("Cannot read properties of null (reading '" ++ prop ++ "')").

(** [data.results] *)
Definition data_results (data : Payload) : Result (option (list RAWGGame)) :=
  match data with
  | PayloadNull => Throw (null_property "results")
  | PayloadRAWG r => Ok (results r)
  | _ => Ok None
  end.

(** [data.data && data.data.games] *)
Definition data_data_games (data : Payload) : Result (option (list TheGamesDBGame)) :=
  match data with
  | PayloadNull => Throw (null_property "data")
  | PayloadTGDB r =>
      Ok (match tgdb_data r with
          | None => None
          | Some d => games d
          end)
  | _ => Ok None
  end.

(** [imagesData.data && imagesData.data[id]], with [imagesData.base_url].
    The key is a decimal numeral, which names no member of a prototype. *)
Definition imagesData_entry (imagesData : Payload) (id : string)
    : Result (option (string * TGDBGameImages)) :=
  match imagesData with
  | PayloadNull => Throw (null_property "data")
  | PayloadTGDBImages r =>
      Ok (match images_data r with
          | None => None
          | Some entries =>
              match own entries id with
              | None => None
              | Some gameImages => Some (base_url r, gameImages)
              end
          end)
  | _ => Ok None
  end.

(** [data.access_token] *)
Definition data_access_token (data : Payload) : Result (option string) :=
  match data with
  | PayloadNull => Throw (null_property "access_token")
  | PayloadIGDBAuth r => Ok (access_token r)
  | _ => Ok None
  end.

(** [games && games.length > 0], giving the array when the test passes. *)
Definition nonempty_games (games : Payload) : list IGDBGame :=
  match games with
  | PayloadIGDBGames l => l
  | _ => []
  end.

(** [x || EMPTY], with EMPTY the empty string, for an optional string. *)
Definition or_empty (o : option string) : string :=
  match o with
  | None => EmptyString
  | Some s => s
  end.

(** ** The provider clients *)

Section Providers.

(** The outside world: the response to a request, given everything that
    happened before it. *)
Variable net : list Event -> Request -> Response.

(** [await fetch(...)]: the exchange is recorded; a network error rejects. *)
Definition fetch (req : Request) : M HttpResponse :=
  fun st =>
    let resp := net (events st) req in
    let st' := mkState (events st ++ [EvFetch req resp]) (ui st) (gamesWithCovers st) in
    match resp with
    | NetworkError => (Throw FetchFailed, st')
    | Http r => (Ok r, st')
    end.

(** [await response.json()] *)
Definition response_json (response : HttpResponse) : M Payload :=
  match response_body response with
  | InvalidJson m => throw (SyntaxError m)
  | Json p => ret p
  end.

Definition fetchGameCoverFromRAWG (title systemName : string) (apiKey : option string)
    : M string :=
  try_catch
    ((* Get platform IDs for the system *)
     let platformIds := lookupPlatformIds PLATFORM_MAPPING (toLowerCase systemName) in
     (* Build search URL *)
     let baseUrl := "https://api.rawg.io/api/games" in
     let params := [("search", title); ("page_size", "10")] in
     let params :=
       if truthy_opt apiKey then (params ++ [("key", template_opt apiKey)])%list else params in
     params <- (if length_gt0 platformIds
                then joined <- lift (join_ids platformIds) ;;
                     ret (params ++ [("platforms", joined)])%list
                else ret params) ;;
     response <- fetch (mkRequest GET baseUrl params [] NoBody) ;;
     if negb (ok response)
     then throw (ErrorMsg ("RAWG API error: " ++ toString (status response)))
     else
       data <- response_json response ;;
       data_results <- lift (data_results data) ;;
       match data_results with
       | Some (first :: rest) =>
           (* Find the best match *)
           let bestMatch := bestMatchRAWG title platformIds first (first :: rest) in
           ret (or_empty (background_image bestMatch))
       | _ => ret EmptyString
       end)
    (fun error =>
       console_error ("Failed to fetch cover from RAWG for " ++ title ++ ":") ;;;
       ret EmptyString).

Definition fetchGameCoverFromTheGamesDB (title systemName : string) (apiKey : option string)
    : M string :=
  if negb (truthy_opt apiKey) then
    console_error "TheGamesDB API requires an API key" ;;;
    ret EmptyString
  else
  try_catch
    ((* Get platform IDs for the system *)
     let platformIds := lookupPlatformIds TGDB_PLATFORM_MAPPING (toLowerCase systemName) in
     (* Build search URL *)
     let baseUrl := "https://api.thegamesdb.net/v1" in
     let params := [("apikey", template_opt apiKey); ("name", title);
                    ("fields", "platform,release_date,boxart")] in
     params <- (if length_gt0 platformIds
                then joined <- lift (join_ids platformIds) ;;
                     ret (params ++ [("filter[platform]", joined)])%list
                else ret params) ;;
     (* Search for the game *)
     response <- fetch (mkRequest GET (baseUrl ++ "/Games/ByGameName") params [] NoBody) ;;
     if negb (ok response)
     then throw (ErrorMsg ("TheGamesDB API error: " ++ toString (status response)))
     else
       data <- response_json response ;;
       data_games <- lift (data_data_games data) ;;
       match data_games with
       | Some (first :: rest) =>
           (* Find the best match *)
           let bestMatch := bestMatchTGDB title platformIds first (first :: rest) in
           (* If we have boxart, we need to get the image URL *)
           match boxart bestMatch with
           | Some {| front := Some _ |} =>
               (* Get the images base URL and data *)
               imagesResponse <-
                 fetch (mkRequest GET
                          (baseUrl ++ "/Games/Images?apikey=" ++ template_opt apiKey
                                   ++ "&games_id=" ++ toString (tgdb_id bestMatch))
                          [] [] NoBody) ;;
               if negb (ok imagesResponse)
               then throw (ErrorMsg ("TheGamesDB Images API error: "
                                       ++ toString (status imagesResponse)))
               else
                 imagesData <- response_json imagesResponse ;;
                 entry <- lift (imagesData_entry imagesData (toString (tgdb_id bestMatch))) ;;
                 match entry with
                 | Some (imagesData_base_url, gameImages) =>
                     ret (gameImagesUrl imagesData_base_url gameImages)
                 | None => ret EmptyString
                 end
           | _ => ret EmptyString
           end
       | _ => ret EmptyString
       end)
    (fun error =>
       console_error ("Failed to fetch cover from TheGamesDB for " ++ title ++ ":") ;;;
       ret EmptyString).

Definition getIGDBAccessToken (clientId clientSecret : string) : M (option string) :=
  try_catch
    (response <-
       fetch (mkRequest POST "https://id.twitch.tv/oauth2/token" []
                [("Content-Type", "application/json")]
                (JsonBody [("client_id", clientId);
                           ("client_secret", clientSecret);
                           ("grant_type", "client_credentials")])) ;;
     if negb (ok response)
     then throw (ErrorMsg ("IGDB Auth error: " ++ toString (status response)))
     else
       data <- response_json response ;;
       lift (data_access_token data))
    (fun error =>
       console_error "Failed to get IGDB access token:" ;;;
       throw error).

Definition fetchGameCoverFromIGDB (title systemName : string)
    (clientId clientSecret : option string) : M string :=
  if negb (truthy_opt clientId) || negb (truthy_opt clientSecret) then
    console_error "IGDB API requires both Client ID and Client Secret" ;;;
    ret EmptyString
  else
  try_catch
    ((* Get access token *)
     accessToken <- getIGDBAccessToken (template_opt clientId) (template_opt clientSecret) ;;
     (* Get platform IDs for the system *)
     let platformIds := lookupPlatformIds IGDB_PLATFORM_MAPPING (toLowerCase systemName) in
     (* Build the query *)
     let query := "search " ++ dquote ++ title ++ dquote
                    ++ "; fields name,cover.*,platforms; limit 10;" in
     (* Add platform filter if available *)
     query <- (if length_gt0 platformIds
               then joined <- lift (join_ids platformIds) ;;
                    ret (query ++ " where platforms = (" ++ joined ++ ");")
               else ret query) ;;
     (* Make the API request *)
     response <-
       fetch (mkRequest POST "https://api.igdb.com/v4/games" []
                [("Accept", "application/json");
                 ("Client-ID", template_opt clientId);
                 ("Authorization", "Bearer " ++ template_opt accessToken)]
                (TextBody query)) ;;
     if negb (ok response)
     then throw (ErrorMsg ("IGDB API error: " ++ toString (status response)))
     else
       games <- response_json response ;;
       match nonempty_games games with
       | first :: rest =>
           (* Find the best match *)
           let bestMatch := bestMatchIGDB title platformIds first (first :: rest) in
           (* If we have a cover, return the image URL *)
           match cover bestMatch with
           | Some c =>
               if truthy (image_id c)
               then ret ("https://images.igdb.com/igdb/image/upload/t_cover_big/"
                           ++ image_id c ++ ".jpg")
               else ret EmptyString
           | None => ret EmptyString
           end
       | [] => ret EmptyString
       end)
    (fun error =>
       console_error ("Failed to fetch cover from IGDB for " ++ title ++ ":") ;;;
       ret EmptyString).

(** ** The batch orchestrator *)

(** [rawgApiKey || undefined] *)
Definition or_undefined (s : string) : option string :=
  if truthy s then Some s else None.

(** [JSON.parse(inputJson)] followed by the [Array.isArray] test. *)
Definition parse_games (input : Parsed) : Result (list GameItem) :=
  match input with
  | ParseFailure => Throw (SyntaxError "Unexpected token")
  | NotAnArray => Throw (ErrorMsg "Input must be an array of games")
  | ParsedArray items => Ok items
  end.

(** The [for (const game of games)] validation loop. *)
Fixpoint validate (games : list GameItem) : Result unit :=
  match games with
  | [] => Ok tt
  | game :: rest =>
      if negb (truthy (title game)) || negb (truthy (systemName game))
      then Throw (ErrorMsg "Each game must have 'title' and 'systemName' properties")
      else validate rest
  end.

(** [{ ...game, imageUrl: imageUrl || undefined }] *)
Definition with_cover (game : GameItem) (url : string) : GameItem :=
  mkGameItem (title game) (systemName game) (if truthy url then Str url else Undefined).

(** [g.imageUrl] as a condition. *)
Definition field_truthy (f : Field) : bool :=
  match f with
  | Str s => truthy s
  | _ => false
  end.

Section Loop.

Variable env : Env.

(** The number [games.length], fixed while the loop runs. *)
Variable games_length : nat.

(** [for (let i = 0; i < games.length; i++) { ... }], entered at index [i]
    with the elements from [i] on. *)
Fixpoint process_from (i : nat) (remaining : list GameItem) : M unit :=
  match remaining with
  | [] => ret tt
  | game :: rest =>
      try_catch
        (imageUrl <-
           match activeApi env with
           | rawg =>
               fetchGameCoverFromRAWG (title game) (systemName game)
                 (or_undefined (rawgApiKey env))
           | thegamesdb =>
               fetchGameCoverFromTheGamesDB (title game) (systemName game)
                 (Some (tgdbApiKey env))
           | igdb =>
               fetchGameCoverFromIGDB (title game) (systemName game)
                 (Some (igdbClientId env)) (Some (igdbClientSecret env))
           end ;;
         gamesWithCovers_push (with_cover game imageUrl) ;;;
         setProcessedCount (i + 1) ;;;
         (* Rate limiting: wait between requests *)
         if Nat.ltb i (games_length - 1)
         then sleep (match activeApi env with igdb => 250 | _ => 1000 end)%Z
         else ret tt)
        (fun error =>
           console_error ("Failed to fetch cover for " ++ title game ++ ":") ;;;
           gamesWithCovers_push game) ;;;
      process_from (S i) rest
  end.

End Loop.

Definition is_thegamesdb (a : ApiType) : bool :=
  match a with thegamesdb => true | _ => false end.

Definition is_igdb (a : ApiType) : bool :=
  match a with igdb => true | _ => false end.

Definition processGames (env : Env) : M unit :=
  setError EmptyString ;;;
  setIsProcessing true ;;;
  setProcessedCount 0 ;;;
  (* Check API key requirements *)
  if is_thegamesdb (activeApi env) && negb (truthy (tgdbApiKey env)) then
    setError "TheGamesDB API requires an API key" ;;;
    toast "API Key Required" "TheGamesDB API requires an API key to function." true ;;;
    setIsProcessing false
  else if is_igdb (activeApi env)
          && (negb (truthy (igdbClientId env)) || negb (truthy (igdbClientSecret env))) then
    setError "IGDB API requires both Client ID and Client Secret" ;;;
    toast "API Credentials Required"
          "IGDB API requires both Client ID and Client Secret to function." true ;;;
    setIsProcessing false
  else
    try_finally
      (try_catch
         ((* Parse input JSON *)
          games <- lift (parse_games (inputJson env)) ;;
          (* Validate structure *)
          lift (validate games) ;;;
          setTotalCount (List.length games) ;;;
          (* Process games with rate limiting *)
          gamesWithCovers_new ;;;
          process_from env (List.length games) 0 games ;;;
          gamesWithCovers <- gamesWithCovers_read ;;
          setOutputJson gamesWithCovers ;;;
          let successCount :=
            List.length (filter (fun g => field_truthy (imageUrl g)) gamesWithCovers) in
          toast "Processing Complete!"
                ("Found covers for " ++ toString (Z.of_nat successCount) ++ " out of "
                   ++ toString (Z.of_nat (List.length gamesWithCovers)) ++ " games.")
                false)
         (fun err =>
            let errorMessage := error_message err in
            setError errorMessage ;;;
            toast "Error" errorMessage true))
      (setIsProcessing false ;;;
       setProcessedCount 0 ;;;
       setTotalCount 0).

End Providers.

(** ** Observations on a run *)

(** The state [st] with further events appended. *)
Definition extend (st : State) (evs : list Event) : State :=
  mkState (events st ++ evs) (ui st) (gamesWithCovers st).

Definition is_fetch (e : Event) : bool :=
  match e with
  | EvFetch _ _ => true
  | _ => false
  end.

(** The network requests among the events. *)
Definition network_calls (evs : list Event) : list Event := filter is_fetch evs.

(** The client-credentials exchange of [getIGDBAccessToken]. *)
Definition is_token_exchange (e : Event) : bool :=
  match e with
  | EvFetch req _ => String.eqb (url req) "https://id.twitch.tv/oauth2/token"
  | _ => false
  end.

Definition token_exchanges (evs : list Event) : nat :=
  List.length (filter is_token_exchange evs).

(** An exchange that failed: the network gave no response, the status is not
    in 200..299, the body is not JSON, the body is JSON [null], or, in answer
    to a search or images request, the body is a JSON value with none of the
    expected properties. (A token response of that kind is not a failure for
    the code: it reads [access_token] as [undefined] and goes on.) *)
Definition failed_exchange (e : Event) : bool :=
  match e with
  | EvFetch _ NetworkError => true
  | EvFetch _ (Http r) =>
      negb (ok r)
      || match response_body r with
         | InvalidJson _ => true
         | Json PayloadNull => true
         | Json PayloadOther => negb (is_token_exchange e)
         | Json _ => false
         end
  | _ => false
  end.

(** The provider call made by the loop body of [processGames] for one game
    (the [if (activeApi === ...)] chain of the source). *)
Definition item_cover (net : list Event -> Request -> Response) (env : Env)
    (game : GameItem) : M string :=
  match activeApi env with
  | rawg =>
      fetchGameCoverFromRAWG net (title game) (systemName game)
        (or_undefined (rawgApiKey env))
  | thegamesdb =>
      fetchGameCoverFromTheGamesDB net (title game) (systemName game)
        (Some (tgdbApiKey env))
  | igdb =>
      fetchGameCoverFromIGDB net (title game) (systemName game)
        (Some (igdbClientId env)) (Some (igdbClientSecret env))
  end.

(** The pause after the item at index [i] of [len]. *)
Definition pause (env : Env) (len i : nat) : list Event :=
  if Nat.ltb i (len - 1)
  then [EvDelay (match activeApi env with igdb => 250 | _ => 1000 end)%Z]
  else [].

(** The state after the loop body for one game, given the state [st1] in
    which its provider call returned [url]. *)
Definition after_item (env : Env) (len i : nat) (game : GameItem) (url : string)
    (st1 : State) : State :=
  mkState (events st1 ++ pause env len i)
          (mkUI (outputJson (ui st1)) (isProcessing (ui st1)) (error (ui st1))
                (i + 1) (totalCount (ui st1)))
          (gamesWithCovers st1 ++ [with_cover game url]).

(** The state in which the loop of [processGames] is entered. *)
Definition loop_entry (len : nat) (st : State) : State :=
  mkState (events st)
          (mkUI (outputJson (ui st)) true EmptyString 0 len)
          [].

(** The members that [JSON.stringify] writes for an item (as the output pane,
    the clipboard and the download do): a property whose value is
    [undefined] is left out. *)
Definition stringify_members (g : GameItem) : list (string * string) :=
  ([("title", title g); ("systemName", systemName g)]
   ++ match imageUrl g with
      | Str s => [("imageUrl", s)]
      | _ => []
      end)%list.

(** Every element has a non-empty [title] and [systemName]. *)
Definition well_formed (items : list GameItem) : Prop :=
  Forall (fun g => title g <> EmptyString /\ systemName g <> EmptyString) items.

(** The credentials that the selected provider requires are there. *)
Definition credentials_present (env : Env) : Prop :=
  match activeApi env with
  | rawg => True
  | thegamesdb => tgdbApiKey env <> EmptyString
  | igdb => igdbClientId env <> EmptyString /\ igdbClientSecret env <> EmptyString
  end.

Definition credentials_missing (env : Env) : Prop :=
  match activeApi env with
  | rawg => False
  | thegamesdb => tgdbApiKey env = EmptyString
  | igdb => igdbClientId env = EmptyString \/ igdbClientSecret env = EmptyString
  end.

(** Two games with the same [title] and [systemName]. *)
Definition same_game (g o : GameItem) : Prop :=
  title o = title g /\ systemName o = systemName g.

(** The cover URL that [fetchGameCoverFromIGDB] builds. *)
Definition igdb_cover_url (image_id : string) : string :=
  "https://images.igdb.com/igdb/image/upload/t_cover_big/" ++ image_id ++ ".jpg".

(** The component state with [processedCount] set to [n]. *)
Definition set_count (u : UI) (n : nat) : UI :=
  mkUI (outputJson u) (isProcessing u) (error u) n (totalCount u).

(** What the loop does to one game: the output element is the game with the
    cover [url]; with IGDB the cover is empty or built from an image id. *)
Definition covered (env : Env) (g o : GameItem) : Prop :=
  exists url,
    o = with_cover g url /\
    (activeApi env = igdb -> url = EmptyString \/ exists id, url = igdb_cover_url id).

(** The state in which [processGames] ends when the loop has ended in
    [st_loop]: the output is set, the toast is shown, and the [finally] block
    has reset the progress cells. *)
Definition completed (st_loop : State) : State :=
  let out := gamesWithCovers st_loop in
  let successCount := List.length (filter (fun g => field_truthy (imageUrl g)) out) in
  mkState
    (events st_loop
     ++ [EvToast "Processing Complete!"
           ("Found covers for " ++ toString (Z.of_nat successCount) ++ " out of "
              ++ toString (Z.of_nat (List.length out)) ++ " games.")
           false])%list
    (mkUI out false (error (ui st_loop)) 0 0)
    out.

(** An absolute URL begins with a scheme (a letter, then letters, digits,
    [+], [-] or [.]) and a colon; [has_scheme] tests that much. *)
Definition is_alpha (c : ascii) : bool :=
  let n := N_of_ascii c in
  ((65 <=? n) && (n <=? 90) || (97 <=? n) && (n <=? 122))%N.

Definition is_scheme_char (c : ascii) : bool :=
  let n := N_of_ascii c in
  (is_alpha c || (48 <=? n) && (n <=? 57) || (n =? 43) || (n =? 45) || (n =? 46))%N.

Fixpoint scheme_rest (s : string) : bool :=
  match s with
  | EmptyString => false
  | String c s' =>
      if (N_of_ascii c =? 58)%N then true else is_scheme_char c && scheme_rest s'
  end.

Definition has_scheme (s : string) : bool :=
  match s with
  | EmptyString => false
  | String c s' => is_alpha c && scheme_rest s'
  end.

(** The property of an output item in the words of the specification: the
    [imageUrl] property is not there at all, or it is a non-empty absolute
    URL. *)
Definition absent_or_absolute_url (o : GameItem) : Prop :=
  imageUrl o = Absent \/
  exists s, imageUrl o = Str s /\ s <> EmptyString /\ has_scheme s = true.

(** What the code gives instead: the property is set to [undefined], which
    serialisation leaves out, or to a non-empty string; with IGDB that string
    is the cover URL of an image id. *)
Definition undefined_or_cover (env : Env) (o : GameItem) : Prop :=
  (imageUrl o = Undefined /\ own (stringify_members o) "imageUrl" = None) \/
  exists s, imageUrl o = Str s /\ s <> EmptyString /\
            (activeApi env = igdb -> exists id, s = igdb_cover_url id).


(** ** Letter case of platform names *)

(** Two code units that are the same letter, in either case, or the same
    code unit. *)
Definition same_letter (c1 c2 : ascii) : bool :=
  Ascii.eqb c1 c2
  || Ascii.eqb (toLowerAscii c1) c2
  || Ascii.eqb c1 (toLowerAscii c2).

(** Two strings that differ only in letter case. *)
Fixpoint differ_only_in_case (s1 s2 : string) : bool :=
  match s1, s2 with
  | EmptyString, EmptyString => true
  | String c1 r1, String c2 r2 => same_letter c1 c2 && differ_only_in_case r1 r2
  | _, _ => false
  end.

(** ** Postconditions of monadic code *)

(** [wp m st Q]: running [m] from [st] ends, with a result or an exception,
    in a state that satisfies [Q]. *)
Definition wp {A : Type} (m : M A) (st : State) (Q : Result A -> State -> Prop) : Prop :=
  Q (fst (m st)) (snd (m st)).

(** The postcondition of a provider call: it returns (never throws), leaves
    the component state alone, appends the events [evs], and [F] holds of the
    returned string and of those events. *)
Definition item_post (st : State) (F : string -> list Event -> Prop)
    : Result string -> State -> Prop :=
  fun r st' => exists url evs, r = Ok url /\ st' = extend st evs /\ F url evs.

(** ** The selection policy in the words of the specification *)

Module Policy.

Section Selector.

Context {A : Type}.

(** A candidate's display name and its platform reference(s). *)
Variable name : A -> string.
Variable refs : A -> list Z.

Variable title : string.
Variable ids : list Z.

(** The display name equals the input title, letter case set aside. *)
Definition title_equal (c : A) : Prop :=
  toLowerCase (name c) = toLowerCase title.

(** The platform references of the candidate meet the resolved list. *)
Definition on_platform (c : A) : Prop :=
  exists x, In x (refs c) /\ In x ids.

(** [c] is the first element of [l], in order, that satisfies [P]. *)
Definition first_such (P : A -> Prop) (l : list A) (c : A) : Prop :=
  exists l1 l2, l = (l1 ++ c :: l2)%list /\ P c /\ forall y, In y l1 -> ~ P y.

(** The three rules, in order. *)
Definition selects (l : list A) (c : A) : Prop :=
  In c l /\
  ((exists x, In x l /\ title_equal x) -> first_such title_equal l c) /\
  ((forall x, In x l -> ~ title_equal x) ->
   ids <> [] ->
   (exists x, In x l /\ on_platform x) ->
   first_such on_platform l c) /\
  ((forall x, In x l -> ~ title_equal x) ->
   ids = [] \/ (forall x, In x l -> ~ on_platform x) ->
   exists rest, l = c :: rest).

End Selector.

(** The platform references of a candidate, per provider. *)
Definition rawg_refs (game : RAWGGame) : list Z :=
  match rawg_platforms game with
  | None => []
  | Some ps => map (fun p => rawg_platform_id (rawg_platform p)) ps
  end.

Definition tgdb_refs (game : TheGamesDBGame) : list Z := [tgdb_platform game].

Definition igdb_refs (game : IGDBGame) : list Z :=
  match igdb_platforms game with
  | None => []
  | Some ps => ps
  end.

End Policy.

(** ** TheGamesDB: a server for one lookup, and the image policy *)

(** A server for one TheGamesDB lookup: [images] answers the images
    endpoint, [search] any other request. *)
Definition tgdb_server (search images : Response) : list Event -> Request -> Response :=
  fun _ req =>
    if String.prefix "https://api.thegamesdb.net/v1/Games/Images" (url req)
    then images
    else search.

(** A search response with the given status and games. *)
Definition tgdb_search_response (status : Z) (games : list TheGamesDBGame) : Response :=
  Http (mkHttpResponse status
          (Json (PayloadTGDB
                   (mkTheGamesDBResponse
                      (Some (mkTheGamesDBData (Z.of_nat (List.length games))
                               (Some games))))))).

(** An images response with the given status, base URL and entries. *)
Definition tgdb_images_response (status : Z) (base : string)
    (entries : list (string * TGDBGameImages)) : Response :=
  Http (mkHttpResponse status
          (Json (PayloadTGDBImages (mkTheGamesDBImageData base (Some entries))))).

(** The candidate has a front box-art reference ([bestMatch.boxart?.front]). *)
Definition has_front (game : TheGamesDBGame) : bool :=
  match boxart game with
  | Some {| front := Some _ |} => true
  | _ => false
  end.

Definition status_ok (status : Z) : Prop := (200 <= status <= 299)%Z.

Module ImagePolicy.

(** The box-art and screenshot lists of a per-game image collection; a
    missing kind is an empty list. *)
Definition boxart_list (gi : TGDBGameImages) : list TGDBImageRef :=
  match images_boxart gi with
  | Some l => l
  | None => []
  end.

Definition screenshot_list (gi : TGDBGameImages) : list TGDBImageRef :=
  match images_screenshots gi with
  | Some l => l
  | None => []
  end.

(** The filename contains the substring "front". *)
Definition is_front (img : TGDBImageRef) : Prop :=
  includes (filename img) "front" = true.

(** The fallback order in the words of the specification; the chosen entry
    and the path segment under which its URL is built, or no cover. *)
Inductive chosen (base : string) (gi : TGDBGameImages) : string -> Prop :=
| chosen_front img :
    Policy.first_such is_front (boxart_list gi) img ->
    chosen base gi (base ++ "/boxart/front/" ++ filename img)
| chosen_first_boxart img rest :
    boxart_list gi = img :: rest ->
    (forall x, In x (boxart_list gi) -> ~ is_front x) ->
    chosen base gi (base ++ "/boxart/front/" ++ filename img)
| chosen_first_screenshot img rest :
    boxart_list gi = [] ->
    screenshot_list gi = img :: rest ->
    chosen base gi (base ++ "/screenshots/" ++ filename img)
| chosen_none :
    boxart_list gi = [] ->
    screenshot_list gi = [] ->
    chosen base gi EmptyString.

End ImagePolicy.

(** ** Fixtures *)

Module Fixture.

Local Open Scope Z_scope.

Definition ui0 : UI := mkUI [] false EmptyString 0 0.
Definition st0 : State := mkState [] ui0 [].

(** The tie-break fixture of the specification, for each provider. *)
Definition rawg_foo2 : RAWGGame :=
  mkRAWGGame 1 "Foo 2" (Some "https://media.rawg.io/media/games/foo2.jpg")
    (Some [mkRAWGPlatformRef (mkRAWGPlatformInfo 1 "One")]).
Definition rawg_foo : RAWGGame :=
  mkRAWGGame 2 "Foo" (Some "https://media.rawg.io/media/games/foo.jpg")
    (Some [mkRAWGPlatformRef (mkRAWGPlatformInfo 2 "Two")]).

Definition tgdb_foo2 : TheGamesDBGame := mkTheGamesDBGame 1 "Foo 2" None 1 None.
Definition tgdb_foo : TheGamesDBGame := mkTheGamesDBGame 2 "Foo" None 2 None.

Definition igdb_foo2 : IGDBGame := mkIGDBGame 1 "Foo 2" None (Some [1]).
Definition igdb_foo : IGDBGame := mkIGDBGame 2 "Foo" None (Some [2]).

(** The fixture of the specification with no exact title. *)
Definition igdb_bar_x : IGDBGame := mkIGDBGame 1 "Bar X" None (Some [9]).
Definition igdb_bar_y : IGDBGame := mkIGDBGame 2 "Bar Y" None (Some [2]).

Definition foo : GameItem := mkGameItem "Foo" "Nintendo GameCube" Absent.
Definition bar : GameItem := mkGameItem "Bar" "Nintendo 64" Absent.
Definition baz : GameItem := mkGameItem "Baz" "Sega Saturn" Absent.

Definition searched (req : Request) (text : string) : bool :=
  match own (params req) "search" with
  | Some s => String.eqb s text
  | None => false
  end.

(** A RAWG server: for "Foo" one game whose image is a path with no scheme,
    for "Bar" a status 500, for any other search no game. *)
Definition rawg_path_only : RAWGGame :=
  mkRAWGGame 7 "Foo" (Some "/media/games/foo.jpg") None.

Definition rawg_net : list Event -> Request -> Response :=
  fun _ req =>
    if searched req "Foo"
    then Http (mkHttpResponse 200 (Json (PayloadRAWG (mkRAWGResponse (Some [rawg_path_only])))))
    else if searched req "Bar"
    then Http (mkHttpResponse 500 (InvalidJson "Unexpected token <"))
    else Http (mkHttpResponse 200 (Json (PayloadRAWG (mkRAWGResponse (Some []))))).

Definition env_rawg (items : list GameItem) : Env :=
  mkEnv (ParsedArray items) rawg EmptyString EmptyString EmptyString EmptyString.

(** An IGDB server: a token for the token endpoint, one game with a cover
    for the search. *)
Definition igdb_covered : IGDBGame :=
  mkIGDBGame 3 "Foo" (Some (mkIGDBCover 30 None "co1abc")) (Some [21]).

Definition igdb_net : list Event -> Request -> Response :=
  fun _ req =>
    if String.eqb (url req) "https://id.twitch.tv/oauth2/token"
    then Http (mkHttpResponse 200
                 (Json (PayloadIGDBAuth (mkIGDBAuthResponse (Some "token") 5000 "bearer"))))
    else Http (mkHttpResponse 200 (Json (PayloadIGDBGames [igdb_covered]))).

Definition env_igdb (items : list GameItem) : Env :=
  mkEnv (ParsedArray items) igdb EmptyString EmptyString "client" "secret".

(** TheGamesDB selected with no key entered. *)
Definition env_tgdb_no_key (items : list GameItem) : Env :=
  mkEnv (ParsedArray items) thegamesdb EmptyString EmptyString EmptyString EmptyString.

(** TheGamesDB fixtures: a game with a front box-art reference, one
    without, and image collections. *)
Definition tgdb_with_front : TheGamesDBGame :=
  mkTheGamesDBGame 42 "Foo" None 2
    (Some (mkTGDBBoxart (Some (mkTGDBImageRef "boxart/front/42-1.jpg" "640x480")) None)).

Definition images_back_only : TGDBGameImages :=
  mkTGDBGameImages
    (Some [mkTGDBImageRef "boxart/back/42-1.jpg" "640x480";
           mkTGDBImageRef "boxart/back/42-2.jpg" "640x480"])
    (Some [mkTGDBImageRef "screenshots/42-1.jpg" "640x480"]).

Definition images_screenshots_only : TGDBGameImages :=
  mkTGDBGameImages None (Some [mkTGDBImageRef "shot-42.jpg" "640x480"]).

(** A state holding the output of an earlier run. *)
Definition st_earlier : State :=
  mkState [] (mkUI [mkGameItem "Old" "Sega Saturn" Undefined] false EmptyString 0 0) [].

End Fixture.


(** ** The dispatcher *)

Definition fetchGameCover (net : list Event -> Request -> Response)
    (title systemName : string) (apiType : ApiType) (apiKey apiSecret : option string)
    : M string :=
  match apiType with
  | rawg => fetchGameCoverFromRAWG net title systemName apiKey
  | thegamesdb => fetchGameCoverFromTheGamesDB net title systemName apiKey
  | igdb => fetchGameCoverFromIGDB net title systemName apiKey apiSecret
  end.

(** ** What goes over the wire, and what comes back *)

(** The identifiers that end up in the platform filter: those of the list, or
    none when the lookup gave a value with no positive [length]. *)
Definition filter_ids (p : PlatformIds) : list Z :=
  match p with
  | IdList ids => ids
  | FromPrototype _ => []
  end.

(** The platform filter can be built: [join] is not called on a function. *)
Definition usable (p : PlatformIds) : bool :=
  match p with
  | FromPrototype (BuiltinFunction (S _)) => false
  | _ => true
  end.

(** The optional pair added to the query when there are identifiers. *)
Definition platform_pair (key : string) (ids : list Z) : list (string * string) :=
  match ids with
  | [] => []
  | _ :: _ => [(key, join "," (map toString ids))]
  end.

(** The search request of [fetchGameCoverFromRAWG]. *)
Definition rawg_request (title : string) (apiKey : option string) (ids : list Z) : Request :=
  mkRequest GET "https://api.rawg.io/api/games"
    ([("search", title); ("page_size", "10")]
     ++ (if truthy_opt apiKey then [("key", template_opt apiKey)] else [])
     ++ platform_pair "platforms" ids)%list
    [] NoBody.

(** The cover that [fetchGameCoverFromRAWG] reads off the response. *)
Definition rawg_cover (title : string) (p : PlatformIds) (resp : Response) : string :=
  match resp with
  | NetworkError => EmptyString
  | Http r =>
      if ok r then
        match response_body r with
        | Json (PayloadRAWG {| results := Some (first :: rest) |}) =>
            or_empty (background_image (bestMatchRAWG title p first (first :: rest)))
        | _ => EmptyString
        end
      else EmptyString
  end.

(** The search request of [fetchGameCoverFromTheGamesDB], and its images
    request for the game [id]. *)
Definition tgdb_search_request (title key : string) (ids : list Z) : Request :=
  mkRequest GET "https://api.thegamesdb.net/v1/Games/ByGameName"
    ([("apikey", key); ("name", title); ("fields", "platform,release_date,boxart")]
     ++ platform_pair "filter[platform]" ids)%list
    [] NoBody.

Definition tgdb_images_request (key : string) (id : Z) : Request :=
  mkRequest GET
    ("https://api.thegamesdb.net/v1/Games/Images?apikey=" ++ key
       ++ "&games_id=" ++ toString id)
    [] [] NoBody.

(** The candidate that [fetchGameCoverFromTheGamesDB] selects from a search
    response, when the response has one. *)
Definition tgdb_candidate (title : string) (p : PlatformIds) (resp : Response)
    : option TheGamesDBGame :=
  match resp with
  | NetworkError => None
  | Http r =>
      if ok r then
        match response_body r with
        | Json (PayloadTGDB {| tgdb_data := Some {| games := Some (first :: rest) |} |}) =>
            Some (bestMatchTGDB title p first (first :: rest))
        | _ => None
        end
      else None
  end.

(** The cover that [fetchGameCoverFromTheGamesDB] reads off the images
    response for the game [id]. *)
Definition tgdb_cover (id : Z) (resp : Response) : string :=
  match resp with
  | NetworkError => EmptyString
  | Http r =>
      if ok r then
        match response_body r with
        | Json (PayloadTGDBImages {| base_url := base; images_data := Some entries |}) =>
            match own entries (toString id) with
            | Some gameImages => gameImagesUrl base gameImages
            | None => EmptyString
            end
        | _ => EmptyString
        end
      else EmptyString
  end.

(** The token request of [getIGDBAccessToken]. *)
Definition token_request (clientId clientSecret : string) : Request :=
  mkRequest POST "https://id.twitch.tv/oauth2/token" []
    [("Content-Type", "application/json")]
    (JsonBody [("client_id", clientId);
               ("client_secret", clientSecret);
               ("grant_type", "client_credentials")]).

(** What [getIGDBAccessToken] makes of the response: the token (which is
    [undefined] when the payload has none), or the error it rethrows. *)
Definition token_result (resp : Response) : Result (option string) :=
  match resp with
  | NetworkError => Throw FetchFailed
  | Http r =>
      if ok r then
        match response_body r with
        | InvalidJson m => Throw (SyntaxError m)
        | Json PayloadNull => Throw (null_property "access_token")
        | Json (PayloadIGDBAuth a) => Ok (access_token a)
        | Json _ => Ok None
        end
      else Throw (ErrorMsg ("IGDB Auth error: " ++ toString (status r)))
  end.

(** The query of [fetchGameCoverFromIGDB]. *)
Definition igdb_query (title : string) (ids : list Z) : string :=
  let query :=
    "search " ++ dquote ++ title ++ dquote ++ "; fields name,cover.*,platforms; limit 10;" in
  match ids with
  | [] => query
  | _ :: _ => query ++ " where platforms = (" ++ join "," (map toString ids) ++ ");"
  end.

(** The search request of [fetchGameCoverFromIGDB]. *)
Definition igdb_search_request (title clientId : string) (accessToken : option string)
    (ids : list Z) : Request :=
  mkRequest POST "https://api.igdb.com/v4/games" []
    [("Accept", "application/json");
     ("Client-ID", clientId);
     ("Authorization", "Bearer " ++ template_opt accessToken)]
    (TextBody (igdb_query title ids)).

(** The cover that [fetchGameCoverFromIGDB] reads off the search response. *)
Definition igdb_cover (title : string) (p : PlatformIds) (resp : Response) : string :=
  match resp with
  | NetworkError => EmptyString
  | Http r =>
      if ok r then
        match response_body r with
        | Json (PayloadIGDBGames (first :: rest)) =>
            match cover (bestMatchIGDB title p first (first :: rest)) with
            | Some c => if truthy (image_id c) then igdb_cover_url (image_id c) else EmptyString
            | None => EmptyString
            end
        | _ => EmptyString
        end
      else EmptyString
  end.

(** No upper-case ASCII letter in the string. *)
Definition is_upper (c : ascii) : bool :=
  let n := N_of_ascii c in ((65 <=? n) && (n <=? 90))%N.

Fixpoint no_upper (s : string) : bool :=
  match s with
  | EmptyString => true
  | String c s' => negb (is_upper c) && no_upper s'
  end.

(** The three tables of the source. *)
Definition platform_tables : list PlatformTable :=
  [PLATFORM_MAPPING; TGDB_PLATFORM_MAPPING; IGDB_PLATFORM_MAPPING].

(** The events a provider call may add: network exchanges and console
    lines, never a toast or a pause. *)
Definition quiet (e : Event) : bool :=
  match e with
  | EvFetch _ _ => true
  | EvConsoleError _ => true
  | _ => false
  end.

(** The most requests one lookup sends. *)
Definition calls_bound (api : ApiType) : nat :=
  match api with
  | rawg => 1
  | _ => 2
  end.

(** The credentials a provider call needs are not all there. *)
Definition call_lacks_credentials (api : ApiType) (apiKey apiSecret : option string) : Prop :=
  match api with
  | rawg => False
  | thegamesdb => truthy_opt apiKey = false
  | igdb => truthy_opt apiKey = false \/ truthy_opt apiSecret = false
  end.

(** The credentials the loop of [processGames] passes to the provider. *)
Definition env_key (env : Env) : option string :=
  match activeApi env with
  | rawg => or_undefined (rawgApiKey env)
  | thegamesdb => Some (tgdbApiKey env)
  | igdb => Some (igdbClientId env)
  end.

Definition env_secret (env : Env) : option string :=
  match activeApi env with
  | igdb => Some (igdbClientSecret env)
  | _ => None
  end.

(** The pause between two items, in milliseconds. *)
Definition delay_of (api : ApiType) : Z :=
  match api with
  | igdb => 250%Z
  | _ => 1000%Z
  end.

Definition is_delay (e : Event) : bool :=
  match e with
  | EvDelay _ => true
  | _ => false
  end.

Definition is_toast (e : Event) : bool :=
  match e with
  | EvToast _ _ _ => true
  | _ => false
  end.

(** [paced api n evs]: the events are those of [n] lookups, one after the
    other; each lookup adds network exchanges and console lines only, within
    the provider's request bound, and one pause of the provider's delay
    separates each lookup from the next. There is no pause after the last. *)
Inductive paced (api : ApiType) : nat -> list Event -> Prop :=
| paced_none : paced api 0 []
| paced_last (block : list Event) :
    forallb quiet block = true ->
    List.length (network_calls block) <= calls_bound api ->
    paced api 1 block
| paced_more (block : list Event) (n : nat) (rest : list Event) :
    forallb quiet block = true ->
    List.length (network_calls block) <= calls_bound api ->
    paced api (S n) rest ->
    paced api (S (S n)) (block ++ EvDelay (delay_of api) :: rest)%list.

(** The closure of [processGames] with another input. *)
Definition with_input (env : Env) (input : Parsed) : Env :=
  mkEnv input (activeApi env) (rawgApiKey env) (tgdbApiKey env)
        (igdbClientId env) (igdbClientSecret env).

(** The input is an array whose elements all have a title and a
    systemName. *)
Definition valid_input (env : Env) : Prop :=
  exists items, inputJson env = ParsedArray items /\ well_formed items.

(** The state in which an aborted run ends: one destructive toast, the error
    set, the output and the result array as they were. [total] is the
    [totalCount] left behind. *)
Definition aborted (st : State) (toast_title description message : string) (total : nat)
    : State :=
  mkState (events st ++ [EvToast toast_title description true])
          (mkUI (outputJson (ui st)) false message 0 total)
          (gamesWithCovers st).

(** The hosts of each provider: the bases of the URLs it is called at. *)
Definition provider_hosts (api : ApiType) : list string :=
  match api with
  | rawg => ["https://api.rawg.io/"]
  | thegamesdb => ["https://api.thegamesdb.net/"]
  | igdb => ["https://id.twitch.tv/"; "https://api.igdb.com/"]
  end.

(** The event is not a request, or a request to a host of the provider. *)
Definition to_provider (api : ApiType) (e : Event) : bool :=
  match e with
  | EvFetch req _ => existsb (fun host => String.prefix host (url req)) (provider_hosts api)
  | _ => true
  end.

(** The pause that follows an item: none after the last one. *)
Definition separator (env : Env) (rest : list GameItem) : list Event :=
  match rest with
  | [] => []
  | _ :: _ => [EvDelay (delay_of (activeApi env))]
  end.

(** The state in which the loop goes on to the items [rest], given the state
    [st1] in which the lookup of [game], at index [i], returned [url]. *)
Definition after_lookup (env : Env) (i : nat) (game : GameItem) (url : string)
    (rest : list GameItem) (st1 : State) : State :=
  mkState (events st1 ++ separator env rest)
          (set_count (ui st1) (i + 1))
          (gamesWithCovers st1 ++ [with_cover game url]).

(** [lookups net env i st items evs]: from the state [st], the events [evs]
    are, for each item in input order, exactly the events of the dispatcher's
    lookup of that item's title and systemName with the credentials of the
    closure, run in the state reached so far (so that it sees every earlier
    exchange and pause), each followed by the pause when an item remains. *)
Inductive lookups (net : list Event -> Request -> Response) (env : Env)
    : nat -> State -> list GameItem -> list Event -> Prop :=
| lookups_done (i : nat) (st : State) : lookups net env i st [] []
| lookups_item (i : nat) (st : State) (game : GameItem) (rest : list GameItem)
    (url : string) (block evs : list Event) :
    fetchGameCover net (title game) (systemName game) (activeApi env)
      (env_key env) (env_secret env) st = (Ok url, extend st block) ->
    lookups net env (S i) (after_lookup env i game url rest (extend st block)) rest evs ->
    lookups net env i st (game :: rest) (block ++ separator env rest ++ evs)%list.

Local Open Scope list_scope.

(** ** Lemmas on the JavaScript primitives *)

Lemma truthy_true_iff (s : string) : truthy s = true <-> s <> EmptyString.
Proof.
  destruct s; simpl; split; intro H; congruence.
Qed.

Lemma find_first {A : Type} (P : A -> bool) (l : list A) (x : A) :
  find P l = Some x ->
  exists l1 l2, l = (l1 ++ x :: l2)%list /\ P x = true /\ forall y, In y l1 -> P y = false.
Proof.
  induction l as [|a l IH]; simpl; intro H; [discriminate|].
  destruct (P a) eqn:Pa.
  - injection H as ->. exists [], l. simpl. repeat split; [assumption | tauto].
  - destruct (IH H) as (l1 & l2 & -> & Px & Hl1).
    exists (a :: l1), l2. simpl. repeat split; [assumption|].
    intros y [<- | Hy]; auto.
Qed.

Lemma includes_id_In (ids : list Z) (x : Z) :
  includes_id (IdList ids) x = true <-> In x ids.
Proof.
  simpl. rewrite existsb_exists. split.
  - intros (y & Hy & E). apply Z.eqb_eq in E. subst. assumption.
  - intro H. exists x. split; [assumption | apply Z.eqb_refl].
Qed.

Lemma length_gt0_IdList (ids : list Z) :
  length_gt0 (IdList ids) = true <-> ids <> [].
Proof.
  destruct ids; simpl; split; intro H; congruence.
Qed.

Lemma rawg_on_platform_iff (ids : list Z) (game : RAWGGame) :
  rawg_on_platform (IdList ids) game = true
  <-> Policy.on_platform Policy.rawg_refs ids game.
Proof.
  unfold rawg_on_platform, Policy.on_platform, Policy.rawg_refs.
  destruct (rawg_platforms game) as [ps|].
  - rewrite existsb_exists. split.
    + intros (p & Hp & E). apply includes_id_In in E.
      exists (rawg_platform_id (rawg_platform p)). split; [|assumption].
      apply in_map_iff. exists p. split; [reflexivity | assumption].
    + intros (x & Hx & Hi). apply in_map_iff in Hx. destruct Hx as (p & <- & Hp).
      exists p. split; [assumption | apply includes_id_In; assumption].
  - split; [discriminate|]. intros (x & [] & _).
Qed.

Lemma tgdb_on_platform_iff (ids : list Z) (game : TheGamesDBGame) :
  includes_id (IdList ids) (tgdb_platform game) = true
  <-> Policy.on_platform Policy.tgdb_refs ids game.
Proof.
  rewrite includes_id_In. unfold Policy.on_platform, Policy.tgdb_refs. split.
  - intro H. exists (tgdb_platform game). split; [left; reflexivity | assumption].
  - intros (x & [<- | []] & Hi). assumption.
Qed.

Lemma igdb_on_platform_iff (ids : list Z) (game : IGDBGame) :
  igdb_on_platform (IdList ids) game = true
  <-> Policy.on_platform Policy.igdb_refs ids game.
Proof.
  unfold igdb_on_platform, Policy.on_platform, Policy.igdb_refs.
  destruct (igdb_platforms game) as [ps|].
  - rewrite existsb_exists. split.
    + intros (x & Hx & E). apply includes_id_In in E. exists x. tauto.
    + intros (x & Hx & Hi). exists x. split; [assumption | apply includes_id_In; assumption].
  - split; [discriminate|]. intros (x & [] & _).
Qed.

Example toLowerCase_GameCube :
  toLowerCase "Nintendo GameCube" = "nintendo gamecube".
Proof. reflexivity. Qed.

Example includes_front :
  includes "boxart/front/42-1.jpg" "front" = true
  /\ includes "boxart/back/42-1.jpg" "front" = false.
Proof. split; reflexivity. Qed.

Example toString_numbers :
  toString 4912 = "4912" /\ toString 0 = "0" /\ toString (-7) = "-7".
Proof. repeat split; reflexivity. Qed.

Example join_ids_two : join_ids (IdList [15; 4911]%Z) = Ok "15,4911".
Proof. reflexivity. Qed.

Example lookup_GameCube :
  lookupPlatformIds PLATFORM_MAPPING (toLowerCase "Nintendo GameCube") = IdList [11%Z]
  /\ lookupPlatformIds TGDB_PLATFORM_MAPPING (toLowerCase "nintendo gamecube") = IdList [2%Z]
  /\ lookupPlatformIds IGDB_PLATFORM_MAPPING (toLowerCase "NINTENDO GAMECUBE") = IdList [21%Z].
Proof. repeat split; reflexivity. Qed.

Example lookup_proto :
  lookupPlatformIds PLATFORM_MAPPING (toLowerCase "__proto__") = FromPrototype PrototypeObject
  /\ length_gt0 (FromPrototype PrototypeObject) = false.
Proof. split; reflexivity. Qed.

(** The selection block meets the policy, once for all providers. *)
Section GenericSelection.

Context {A : Type}.
Variables (name : A -> string) (refs : A -> list Z).
Variables (title : string) (ids : list Z).
Variable plat_is : A -> bool.
Hypothesis plat_is_spec :
  forall c, plat_is c = true <-> Policy.on_platform refs ids c.

Lemma name_is_spec (c : A) :
  String.eqb (toLowerCase (name c)) (toLowerCase title) = true
  <-> Policy.title_equal name title c.
Proof. unfold Policy.title_equal. apply String.eqb_eq. Qed.

Lemma find_first_such (P : A -> bool) (Q : A -> Prop) (l : list A) (c : A) :
  (forall x, P x = true <-> Q x) ->
  find P l = Some c -> Policy.first_such Q l c.
Proof.
  intros PQ H. destruct (find_first P l c H) as (l1 & l2 & -> & Pc & Hl1).
  exists l1, l2. repeat split; [apply PQ; assumption|].
  intros y Hy Qy. apply PQ in Qy. rewrite (Hl1 y Hy) in Qy. discriminate.
Qed.

Lemma first_such_In (Q : A -> Prop) (l : list A) :
  forall c, Policy.first_such Q l c -> In c l.
Proof.
  intros c (l1 & l2 & -> & _). apply in_or_app. right. left. reflexivity.
Qed.

Lemma generic_best_selects (first : A) (rest : list A) :
  Policy.selects name refs title ids (first :: rest)
    (generic_best name plat_is title (IdList ids) first (first :: rest)).
Proof.
  unfold generic_best.
  set (name_is := fun c => String.eqb (toLowerCase (name c)) (toLowerCase title)).
  destruct (find name_is (first :: rest)) as [exact|] eqn:Fn.
  - pose proof (find_first_such _ _ _ _ name_is_spec Fn) as Hfs.
    split; [eapply first_such_In; eassumption|].
    split; [intros _; assumption|].
    apply find_some in Fn. destruct Fn as [Hin Hn]. apply name_is_spec in Hn.
    split; intros Hno; exfalso; exact (Hno exact Hin Hn).
  - assert (Hnone : forall x, In x (first :: rest) -> ~ Policy.title_equal name title x).
    { intros x Hx Hq. apply name_is_spec in Hq.
      pose proof (find_none _ _ Fn x Hx) as Hx'. unfold name_is in Hx'.
      rewrite Hx' in Hq. discriminate. }
    destruct (length_gt0 (IdList ids)) eqn:Hlen.
    + destruct (find plat_is (first :: rest)) as [pm|] eqn:Fp.
      * pose proof (find_first_such _ _ _ _ plat_is_spec Fp) as Hfs.
        split; [eapply first_such_In; eassumption|].
        split; [intros (x & Hx & Hq); exfalso; exact (Hnone x Hx Hq)|].
        split; [intros _ _ _; assumption|].
        apply find_some in Fp. destruct Fp as [Hin Hp]. apply plat_is_spec in Hp.
        intros _ [Hids | Hno].
        -- apply length_gt0_IdList in Hlen. contradiction.
        -- exfalso. exact (Hno pm Hin Hp).
      * split; [left; reflexivity|].
        split; [intros (x & Hx & Hq); exfalso; exact (Hnone x Hx Hq)|].
        split.
        -- intros _ _ (x & Hx & Hq). apply plat_is_spec in Hq.
           rewrite (find_none _ _ Fp x Hx) in Hq. discriminate.
        -- intros _ _. exists rest. reflexivity.
    + split; [left; reflexivity|].
      split; [intros (x & Hx & Hq); exfalso; exact (Hnone x Hx Hq)|].
      split.
      * intros _ Hids. apply length_gt0_IdList in Hids. congruence.
      * intros _ _. exists rest. reflexivity.
Qed.

End GenericSelection.

Lemma bestMatchRAWG_generic title p first l :
  bestMatchRAWG title p first l
  = generic_best rawg_name (rawg_on_platform p) title p first l.
Proof. reflexivity. Qed.

Lemma bestMatchTGDB_generic title p first l :
  bestMatchTGDB title p first l
  = generic_best game_title (fun game => includes_id p (tgdb_platform game)) title p first l.
Proof. reflexivity. Qed.

Lemma bestMatchIGDB_generic title p first l :
  bestMatchIGDB title p first l
  = generic_best igdb_name (igdb_on_platform p) title p first l.
Proof. reflexivity. Qed.

(** ** Candidate selection *)

(** C1. For each of the three providers, on a non-empty candidate list
    [first :: rest], for every title and every resolved platform-ID list
    (empty or not), the selection block returns a member of the list which is
    (1) the first candidate whose name equals the title up to letter case, if
    there is one; (2) otherwise, when the ID list is non-empty, the first
    candidate whose platform references meet the list, if there is one;
    (3) otherwise the head of the list. *)
Theorem C1_selector_policy :
  (forall title ids first rest,
      Policy.selects rawg_name Policy.rawg_refs title ids (first :: rest)
        (bestMatchRAWG title (IdList ids) first (first :: rest))) /\
  (forall title ids first rest,
      Policy.selects game_title Policy.tgdb_refs title ids (first :: rest)
        (bestMatchTGDB title (IdList ids) first (first :: rest))) /\
  (forall title ids first rest,
      Policy.selects igdb_name Policy.igdb_refs title ids (first :: rest)
        (bestMatchIGDB title (IdList ids) first (first :: rest))).
Proof.
  split; [|split]; intros title ids first rest.
  - rewrite bestMatchRAWG_generic.
    apply generic_best_selects. intro c. apply rawg_on_platform_iff.
  - rewrite bestMatchTGDB_generic.
    apply generic_best_selects. intro c. apply tgdb_on_platform_iff.
  - rewrite bestMatchIGDB_generic.
    apply generic_best_selects. intro c. apply igdb_on_platform_iff.
Qed.

(** The second fixture of the specification: no exact title, the platform
    match wins over the first result. *)
Example selects_Bar_Y :
  bestMatchIGDB "Baz" (IdList [2%Z]) Fixture.igdb_bar_x
    [Fixture.igdb_bar_x; Fixture.igdb_bar_y] = Fixture.igdb_bar_y.
Proof. reflexivity. Qed.

(** With neither match, the first candidate. *)
Example selects_first :
  bestMatchIGDB "Baz" (IdList [5%Z]) Fixture.igdb_bar_x
    [Fixture.igdb_bar_x; Fixture.igdb_bar_y] = Fixture.igdb_bar_x.
Proof. reflexivity. Qed.

(** On the fixture with no exact title, the platform rule picks the second
    candidate: rule (2) of C1 at a concrete input. *)
Lemma C1_selector_policy_witness :
  Policy.first_such (Policy.on_platform Policy.tgdb_refs [2%Z])
    [Fixture.tgdb_foo2; Fixture.tgdb_foo] Fixture.tgdb_foo.
Proof.
  refine (proj1 (proj2 (proj2
            (proj1 (proj2 C1_selector_policy) "Baz" [2%Z]
               Fixture.tgdb_foo2 [Fixture.tgdb_foo]))) _ _ _).
  - intros x [<- | [<- | []]]; unfold Policy.title_equal; simpl; discriminate.
  - discriminate.
  - exists Fixture.tgdb_foo. split; [right; left; reflexivity|].
    exists 2%Z. split; left; reflexivity.
Defined.

(** C2, as stated, fails: on the fixture the block does not return the
    candidate named "Foo 2". *)
Lemma C2_fixture_not_Foo_2 :
  rawg_name (bestMatchRAWG "Foo" (IdList [2%Z]) Fixture.rawg_foo2
               [Fixture.rawg_foo2; Fixture.rawg_foo]) <> "Foo 2".
Proof. vm_compute. discriminate. Qed.

(** C2, amended. On the fixture (candidates "Foo 2" on platform 1 and "Foo"
    on platform 2, title "Foo", platform IDs [2]) each provider's selection
    block returns the candidate named "Foo": the exact-title match, which is
    here the platform match as well. *)
Theorem C2_fixture_selects_Foo :
  bestMatchRAWG "Foo" (IdList [2%Z]) Fixture.rawg_foo2
    [Fixture.rawg_foo2; Fixture.rawg_foo] = Fixture.rawg_foo /\
  bestMatchTGDB "Foo" (IdList [2%Z]) Fixture.tgdb_foo2
    [Fixture.tgdb_foo2; Fixture.tgdb_foo] = Fixture.tgdb_foo /\
  bestMatchIGDB "Foo" (IdList [2%Z]) Fixture.igdb_foo2
    [Fixture.igdb_foo2; Fixture.igdb_foo] = Fixture.igdb_foo /\
  rawg_name Fixture.rawg_foo = "Foo" /\
  game_title Fixture.tgdb_foo = "Foo" /\
  igdb_name Fixture.igdb_foo = "Foo".
Proof. repeat split; reflexivity. Qed.

(** ** Reasoning about monadic code by symbolic execution *)

Lemma wp_ret {A} (a : A) st Q : Q (Ok a) st -> wp (ret a) st Q.
Proof. exact (fun H => H). Qed.

Lemma wp_throw {A} (e : Error) st (Q : Result A -> State -> Prop) :
  Q (Throw e) st -> wp (throw e) st Q.
Proof. exact (fun H => H). Qed.

Lemma wp_lift {A} (r : Result A) st Q : Q r st -> wp (lift r) st Q.
Proof. exact (fun H => H). Qed.

Lemma wp_bind {A B} (m : M A) (k : A -> M B) st Q :
  wp m st (fun r st' =>
             match r with
             | Ok a => wp (k a) st' Q
             | Throw e => Q (Throw e) st'
             end) ->
  wp (bind m k) st Q.
Proof. unfold wp, bind. destruct (m st) as [[a|e] st']; simpl; auto. Qed.

Lemma wp_try_catch {A} (m : M A) (h : Error -> M A) st Q :
  wp m st (fun r st' =>
             match r with
             | Ok a => Q (Ok a) st'
             | Throw e => wp (h e) st' Q
             end) ->
  wp (try_catch m h) st Q.
Proof. unfold wp, try_catch. destruct (m st) as [[a|e] st']; simpl; auto. Qed.

Lemma wp_emit (e : Event) st Q : Q (Ok tt) (extend st [e]) -> wp (emit e) st Q.
Proof. exact (fun H => H). Qed.

Lemma wp_fetch net (req : Request) st Q :
  (forall resp, net (events st) req = resp ->
     Q (match resp with
        | NetworkError => Throw FetchFailed
        | Http r => Ok r
        end) (extend st [EvFetch req resp])) ->
  wp (fetch net req) st Q.
Proof.
  intro H. specialize (H _ eq_refl). unfold wp, fetch.
  destruct (net (events st) req); exact H.
Qed.

Lemma wp_weaken {A} (m : M A) st (Q Q' : Result A -> State -> Prop) :
  (forall r st', Q r st' -> Q' r st') -> wp m st Q -> wp m st Q'.
Proof. unfold wp. auto. Qed.

Lemma wp_item_post (m : M string) st F :
  wp m st (item_post st F) ->
  exists url evs, m st = (Ok url, extend st evs) /\ F url evs.
Proof.
  unfold wp, item_post. intros (url & evs & Hr & Hs & HF).
  exists url, evs. split; [|assumption].
  destruct (m st) as [r st']. simpl in *. congruence.
Qed.

Lemma extend_extend st e1 e2 : extend (extend st e1) e2 = extend st (e1 ++ e2).
Proof. unfold extend. simpl. rewrite app_assoc. reflexivity. Qed.

Lemma extend_nil st : extend st [] = st.
Proof. destruct st. unfold extend. simpl. rewrite app_nil_r. reflexivity. Qed.

(** One step of symbolic execution on the head of the monadic term. *)
Ltac wp_step :=
  lazymatch goal with
  | |- wp (bind _ _) _ _ => apply wp_bind
  | |- wp (try_catch _ _) _ _ => apply wp_try_catch
  | |- wp (ret _) _ _ => apply wp_ret
  | |- wp (throw _) _ _ => apply wp_throw
  | |- wp (lift ?r) _ _ => apply wp_lift; destruct r eqn:?
  | |- wp (fetch _ _) _ _ =>
      apply wp_fetch;
      let resp := fresh "resp" in
      let E := fresh "Enet" in
      intros resp E; destruct resp
  | |- wp (console_error _) _ _ => unfold console_error; apply wp_emit
  | |- wp (emit _) _ _ => apply wp_emit
  | |- wp (response_json ?r) _ _ =>
      unfold response_json; destruct (response_body r) eqn:?
  | |- wp (if ?b then _ else _) _ _ => destruct b eqn:?
  | |- wp (match ?x with _ => _ end) _ _ => destruct x eqn:?
  end; cbv beta iota.

(** At a leaf: name the returned string and the events. *)
Ltac wp_leaf :=
  unfold item_post; rewrite ?extend_extend;
  do 2 eexists; (split; [reflexivity|]); (split; [reflexivity|]).

(** A call that returned a cover met no failed exchange. *)
Ltac no_failure :=
  let Hf := fresh "Hf" in
  intro Hf; try reflexivity; exfalso;
  cbn [existsb app failed_exchange orb] in Hf;
  repeat match goal with
         | H : negb (ok ?r) = false |- _ => rewrite H in Hf
         | H : response_body ?r = _ |- _ => rewrite H in Hf
         end;
  repeat match goal with
         | p : Payload |- _ => destruct p; try discriminate
         end;
  cbn in Hf; discriminate.

Lemma fetchGameCoverFromRAWG_wp net title sys key st :
  wp (fetchGameCoverFromRAWG net title sys key) st
     (item_post st (fun url evs =>
        (existsb failed_exchange evs = true -> url = EmptyString)
        /\ token_exchanges evs = 0)).
Proof.
  rewrite <- (extend_nil st) at 1.
  unfold fetchGameCoverFromRAWG. cbv zeta.
  repeat wp_step.
  all: wp_leaf; (split; [no_failure | reflexivity]).
Qed.

Lemma fetchGameCoverFromTheGamesDB_wp net title sys key st :
  wp (fetchGameCoverFromTheGamesDB net title sys key) st
     (item_post st (fun url evs =>
        (existsb failed_exchange evs = true -> url = EmptyString)
        /\ token_exchanges evs = 0)).
Proof.
  rewrite <- (extend_nil st) at 1.
  unfold fetchGameCoverFromTheGamesDB. cbv zeta.
  repeat wp_step.
  all: wp_leaf; (split; [no_failure | reflexivity]).
Qed.

Lemma getIGDBAccessToken_wp net clientId clientSecret st :
  wp (getIGDBAccessToken net clientId clientSecret) st
     (fun r st' =>
        exists evs, st' = extend st evs
          /\ token_exchanges evs = 1
          /\ (existsb failed_exchange evs = true -> exists e, r = Throw e)).
Proof.
  rewrite <- (extend_nil st) at 1.
  unfold getIGDBAccessToken.
  repeat wp_step.
  all: rewrite ?extend_extend; eexists; (split; [reflexivity|]);
    (split; [reflexivity|]).
  all: try (intros _; eexists; reflexivity).
  all: intro Hf; exfalso; cbn [existsb app failed_exchange orb] in Hf;
    repeat match goal with
           | H : negb (ok ?r) = false |- _ => rewrite H in Hf
           | H : response_body ?r = _ |- _ => rewrite H in Hf
           end;
    repeat match goal with
           | p : Payload |- _ => destruct p; try discriminate
           end;
    cbn in Hf; discriminate.
Qed.

Lemma fetchGameCoverFromIGDB_wp net title sys clientId clientSecret st :
  truthy clientId = true ->
  truthy clientSecret = true ->
  wp (fetchGameCoverFromIGDB net title sys (Some clientId) (Some clientSecret)) st
     (item_post st (fun url evs =>
        (existsb failed_exchange evs = true -> url = EmptyString)
        /\ token_exchanges evs = 1
        /\ (url = EmptyString \/ exists id, url = igdb_cover_url id))).
Proof.
  intros Hid Hsecret.
  unfold fetchGameCoverFromIGDB. cbn [truthy_opt]. rewrite Hid, Hsecret.
  cbn [negb orb]. cbv zeta.
  apply wp_try_catch. apply wp_bind.
  eapply wp_weaken; [|apply getIGDBAccessToken_wp].
  intros r st' (evs & -> & Htok & Hfail).
  destruct r as [accessToken|e].
  - assert (Hok : existsb failed_exchange evs = false).
    { destruct (existsb failed_exchange evs); [|reflexivity].
      destruct (Hfail eq_refl) as (e & He). discriminate. }
    repeat wp_step.
    all: wp_leaf.
    all: split; [|split; [unfold token_exchanges in *; rewrite ?filter_app, ?length_app, Htok;
                           reflexivity|]].
    all: try (left; reflexivity).
    all: try (right; eexists; reflexivity).
    all: rewrite existsb_app, Hok; cbn [orb]; no_failure.
  - repeat wp_step. wp_leaf.
    split; [intros _; reflexivity|].
    split; [|left; reflexivity].
    unfold token_exchanges in *. rewrite filter_app, length_app, Htok. reflexivity.
Qed.

(** ** The loop of [processGames] *)

Lemma item_cover_spec net env game st :
  credentials_present env ->
  exists url evs,
    item_cover net env game st = (Ok url, extend st evs)
    /\ (existsb failed_exchange evs = true -> url = EmptyString)
    /\ token_exchanges evs = (if is_igdb (activeApi env) then 1 else 0)
    /\ (activeApi env = igdb -> url = EmptyString \/ exists id, url = igdb_cover_url id).
Proof.
  unfold credentials_present, item_cover. intro Hc.
  destruct (activeApi env).
  - destruct (wp_item_post _ _ _ (fetchGameCoverFromRAWG_wp net (title game)
                (systemName game) (or_undefined (rawgApiKey env)) st))
      as (url & evs & E & Hf & Ht).
    exists url, evs. repeat split; try assumption. discriminate.
  - destruct (wp_item_post _ _ _ (fetchGameCoverFromTheGamesDB_wp net (title game)
                (systemName game) (Some (tgdbApiKey env)) st))
      as (url & evs & E & Hf & Ht).
    exists url, evs. repeat split; try assumption. discriminate.
  - destruct Hc as [Hid Hsecret]. apply truthy_true_iff in Hid, Hsecret.
    destruct (wp_item_post _ _ _ (fetchGameCoverFromIGDB_wp net (title game)
                (systemName game) _ _ st Hid Hsecret))
      as (url & evs & E & Hf & Ht & Hu).
    exists url, evs. repeat split; try assumption. intros _. assumption.
Qed.

Lemma process_from_cons net env len i game rest st url st1 :
  item_cover net env game st = (Ok url, st1) ->
  process_from net env len i (game :: rest) st
  = process_from net env len (S i) rest (after_item env len i game url st1).
Proof.
  intro E. unfold item_cover in E.
  cbn [process_from]. unfold bind at 1. unfold try_catch. unfold bind at 1.
  rewrite E.
  unfold after_item, pause.
  destruct (Nat.ltb i (len - 1)); destruct st1 as [ev u g]; cbn;
    rewrite ?app_nil_r; reflexivity.
Qed.

Lemma token_exchanges_app e1 e2 :
  token_exchanges (e1 ++ e2) = token_exchanges e1 + token_exchanges e2.
Proof. unfold token_exchanges. rewrite filter_app, length_app. reflexivity. Qed.

Lemma token_exchanges_pause env len i : token_exchanges (pause env len i) = 0.
Proof. unfold pause. destruct (Nat.ltb i (len - 1)); reflexivity. Qed.

Lemma process_from_spec net env len :
  credentials_present env ->
  forall rest i st,
  exists outs evs n,
    process_from net env len i rest st
    = (Ok tt, mkState (events st ++ evs) (set_count (ui st) n) (gamesWithCovers st ++ outs))
    /\ Forall2 (covered env) rest outs
    /\ token_exchanges evs = (if is_igdb (activeApi env) then List.length rest else 0).
Proof.
  intros Hc rest. induction rest as [|game rest IH]; intros i st.
  - exists [], [], (processedCount (ui st)). split; [|split].
    + destruct st as [ev [o p e c t] g]. cbn. rewrite !app_nil_r. reflexivity.
    + constructor.
    + destruct (is_igdb (activeApi env)); reflexivity.
  - destruct (item_cover_spec net env game st Hc) as (url & evs1 & E & _ & Ht & Hu).
    rewrite (process_from_cons _ _ _ _ _ _ _ _ _ E).
    destruct (IH (S i) (after_item env len i game url (extend st evs1)))
      as (outs & evs & n & Er & Hall & Htok).
    exists (with_cover game url :: outs), (evs1 ++ pause env len i ++ evs), n.
    split; [|split].
    + rewrite Er. unfold after_item, extend, set_count. cbn.
      rewrite <- !app_assoc. reflexivity.
    + constructor; [|assumption]. exists url. split; [reflexivity | assumption].
    + rewrite !token_exchanges_app, token_exchanges_pause, Ht, Htok.
      destruct (is_igdb (activeApi env)); reflexivity.
Qed.


(** ** The whole run *)

Lemma validate_ok items : well_formed items -> validate items = Ok tt.
Proof.
  induction 1 as [|g l [Ht Hs] _ IH]; [reflexivity|].
  cbn [validate]. apply truthy_true_iff in Ht, Hs. rewrite Ht, Hs. exact IH.
Qed.

Lemma credential_checks_pass env :
  credentials_present env ->
  is_thegamesdb (activeApi env) && negb (truthy (tgdbApiKey env)) = false /\
  is_igdb (activeApi env)
  && (negb (truthy (igdbClientId env)) || negb (truthy (igdbClientSecret env))) = false.
Proof.
  unfold credentials_present. destruct (activeApi env); cbn; intro H.
  - split; reflexivity.
  - apply truthy_true_iff in H. rewrite H. split; reflexivity.
  - destruct H as [H1 H2]. apply truthy_true_iff in H1, H2. rewrite H1, H2.
    split; reflexivity.
Qed.

(** Evaluation of the combinators and of the state cells. *)
Ltac run_m :=
  cbv beta iota zeta delta
    [bind try_catch try_finally ret throw lift
     setError setIsProcessing setProcessedCount setTotalCount setOutputJson
     modify_ui toast emit gamesWithCovers_new gamesWithCovers_read parse_games
     loop_entry completed extend set_count
     outputJson isProcessing error processedCount totalCount
     events ui gamesWithCovers fst snd].

Lemma processGames_complete net env st items :
  inputJson env = ParsedArray items ->
  well_formed items ->
  credentials_present env ->
  processGames net env st
  = (Ok tt,
     completed (snd (process_from net env (List.length items) 0 items
                       (loop_entry (List.length items) st)))).
Proof.
  intros Hin Hwf Hc.
  destruct (credential_checks_pass env Hc) as [C1 C2].
  destruct (process_from_spec net env (List.length items) Hc items 0
              (loop_entry (List.length items) st)) as (outs & evs & n & E & _).
  unfold processGames. rewrite C1, C2, Hin.
  destruct st as [ev [o p e c t] g].
  run_m. rewrite (validate_ok items Hwf).
  revert E. run_m. intro E. rewrite E. reflexivity.
Qed.

(** The run on a valid input, in one statement: the output, the events and
    the error cell. *)
Lemma processGames_result net env st items :
  inputJson env = ParsedArray items ->
  well_formed items ->
  credentials_present env ->
  exists outs evs toast,
    fst (processGames net env st) = Ok tt
    /\ outputJson (ui (snd (processGames net env st))) = outs
    /\ error (ui (snd (processGames net env st))) = EmptyString
    /\ events (snd (processGames net env st)) = events st ++ evs ++ [toast]
    /\ is_fetch toast = false
    /\ Forall2 (covered env) items outs
    /\ token_exchanges evs = (if is_igdb (activeApi env) then List.length items else 0).
Proof.
  intros Hin Hwf Hc.
  rewrite (processGames_complete net env st items Hin Hwf Hc).
  destruct (process_from_spec net env (List.length items) Hc items 0
              (loop_entry (List.length items) st)) as (outs & evs & n & E & Hall & Htok).
  rewrite E. exists outs, evs. eexists.
  destruct st as [ev [o p e c t] g]. run_m.
  repeat split; try eassumption; try reflexivity.
  - rewrite <- app_assoc. reflexivity.
  - reflexivity.
Qed.

Lemma covered_same_game env g o : covered env g o -> same_game g o.
Proof. intros (url & -> & _). split; reflexivity. Qed.

Lemma Forall2_nth_error {A B} (R : A -> B -> Prop) l1 l2 :
  Forall2 R l1 l2 ->
  forall i a, nth_error l1 i = Some a -> exists b, nth_error l2 i = Some b /\ R a b.
Proof.
  induction 1 as [|x y l1 l2 Hxy _ IH]; intros [|i] a E; try discriminate.
  - injection E as <-. exists y. split; [reflexivity | assumption].
  - exact (IH i a E).
Qed.

Lemma with_cover_undefined_or_cover env g url :
  (activeApi env = igdb -> url = EmptyString \/ exists id, url = igdb_cover_url id) ->
  undefined_or_cover env (with_cover g url).
Proof.
  intro Hu. unfold undefined_or_cover, with_cover. cbn [imageUrl].
  destruct url as [|c url'].
  - left. split; reflexivity.
  - right. exists (String c url'). repeat split; [discriminate|].
    intro Hi. destruct (Hu Hi) as [E | E]; [discriminate | exact E].
Qed.

(** ** Properties of the batch run *)

(** C3, as stated, fails: a run with IGDB on two items performs the token
    exchange twice, not once. *)
Lemma C3_two_items_two_token_exchanges :
  token_exchanges
    (events (snd (processGames Fixture.igdb_net
                    (Fixture.env_igdb [Fixture.foo; Fixture.bar]) Fixture.st0))) = 2
  /\ token_exchanges
       (events (snd (processGames Fixture.igdb_net
                       (Fixture.env_igdb [Fixture.foo; Fixture.bar]) Fixture.st0))) <> 1.
Proof. split; [vm_compute; reflexivity | vm_compute; discriminate]. Qed.

(** C3, amended. In a run with IGDB on a valid input, with both credentials
    present, the token exchange is performed once for every item: as many
    times as the input has items, whatever the network answers. *)
Theorem C3_token_exchange_once_per_item net env st items :
  activeApi env = igdb ->
  inputJson env = ParsedArray items ->
  well_formed items ->
  credentials_present env ->
  token_exchanges (events (snd (processGames net env st)))
  = token_exchanges (events st) + List.length items.
Proof.
  intros Hapi Hin Hwf Hc.
  destruct (processGames_result net env st items Hin Hwf Hc)
    as (outs & evs & toast & _ & _ & _ & Hev & Hto & _ & Htok).
  rewrite Hev, !token_exchanges_app, Htok, Hapi. cbn [is_igdb].
  destruct toast; try discriminate; cbn; lia.
Qed.

Lemma C3_token_exchange_once_per_item_witness :
  token_exchanges
    (events (snd (processGames Fixture.igdb_net
                    (Fixture.env_igdb [Fixture.foo; Fixture.bar; Fixture.baz])
                    Fixture.st0)))
  = token_exchanges (events Fixture.st0) + 3.
Proof.
  apply (C3_token_exchange_once_per_item Fixture.igdb_net
           (Fixture.env_igdb [Fixture.foo; Fixture.bar; Fixture.baz]) Fixture.st0
           [Fixture.foo; Fixture.bar; Fixture.baz]).
  - reflexivity.
  - reflexivity.
  - repeat constructor; discriminate.
  - split; discriminate.
Defined.

(** C4. For a valid input (an array whose elements all have a non-empty
    title and systemName), in a run that passes the credential check, the
    output list has the length of the input list, and the element at each
    index is the input element at that index: same title and systemName. *)
Theorem C4_output_length_and_order net env st items :
  inputJson env = ParsedArray items ->
  well_formed items ->
  credentials_present env ->
  List.length (outputJson (ui (snd (processGames net env st)))) = List.length items
  /\ forall i g,
       nth_error items i = Some g ->
       exists o,
         nth_error (outputJson (ui (snd (processGames net env st)))) i = Some o
         /\ same_game g o.
Proof.
  intros Hin Hwf Hc.
  destruct (processGames_result net env st items Hin Hwf Hc)
    as (outs & evs & toast & _ & Hout & _ & _ & _ & Hall & _).
  rewrite Hout. split.
  - symmetry. eapply Forall2_length. eassumption.
  - intros i g Hi. destruct (Forall2_nth_error _ _ _ Hall i g Hi) as (o & Ho & Hcov).
    exists o. split; [assumption | eapply covered_same_game; eassumption].
Qed.

Lemma C4_output_length_and_order_witness :
  List.length (outputJson (ui (snd (processGames Fixture.rawg_net
                 (Fixture.env_rawg [Fixture.foo; Fixture.bar; Fixture.baz])
                 Fixture.st0)))) = 3
  /\ forall i g,
       nth_error [Fixture.foo; Fixture.bar; Fixture.baz] i = Some g ->
       exists o,
         nth_error (outputJson (ui (snd (processGames Fixture.rawg_net
                      (Fixture.env_rawg [Fixture.foo; Fixture.bar; Fixture.baz])
                      Fixture.st0)))) i = Some o
         /\ same_game g o.
Proof.
  apply (C4_output_length_and_order Fixture.rawg_net
           (Fixture.env_rawg [Fixture.foo; Fixture.bar; Fixture.baz]) Fixture.st0
           [Fixture.foo; Fixture.bar; Fixture.baz]).
  - reflexivity.
  - repeat constructor; discriminate.
  - exact I.
Defined.




(** C6. When the selected provider's required credentials are missing
    (TheGamesDB: the key; IGDB: the client ID or the client secret), the run
    ends before any network request: the only new event is the toast, the
    output list is the one that was there before, and the error is set. *)
Theorem C6_missing_credentials_abort net env st :
  credentials_missing env ->
  fst (processGames net env st) = Ok tt
  /\ network_calls (events (snd (processGames net env st))) = network_calls (events st)
  /\ outputJson (ui (snd (processGames net env st))) = outputJson (ui st)
  /\ error (ui (snd (processGames net env st))) <> EmptyString
  /\ exists t d, events (snd (processGames net env st)) = events st ++ [EvToast t d true].
Proof.
  unfold credentials_missing, processGames. intro Hm.
  destruct st as [ev [o p e c t] g].
  destruct (activeApi env); [contradiction | |].
  - rewrite Hm. cbn [is_thegamesdb truthy negb andb]. run_m.
    repeat split.
    + unfold network_calls. rewrite filter_app. cbn. apply app_nil_r.
    + discriminate.
    + do 2 eexists. reflexivity.
  - assert (Hb : negb (truthy (igdbClientId env)) || negb (truthy (igdbClientSecret env))
                 = true).
    { destruct Hm as [-> | ->]; cbn; [reflexivity | apply orb_true_r]. }
    cbn [is_thegamesdb is_igdb andb]. rewrite Hb. run_m.
    repeat split.
    + unfold network_calls. rewrite filter_app. cbn. apply app_nil_r.
    + discriminate.
    + do 2 eexists. reflexivity.
Qed.

Lemma C6_missing_credentials_abort_witness :
  network_calls
    (events (snd (processGames Fixture.rawg_net
                    (Fixture.env_tgdb_no_key [Fixture.foo; Fixture.bar])
                    Fixture.st_earlier))) = []
  /\ outputJson
       (ui (snd (processGames Fixture.rawg_net
                   (Fixture.env_tgdb_no_key [Fixture.foo; Fixture.bar])
                   Fixture.st_earlier)))
     = [mkGameItem "Old" "Sega Saturn" Undefined].
Proof.
  pose proof (C6_missing_credentials_abort Fixture.rawg_net
                (Fixture.env_tgdb_no_key [Fixture.foo; Fixture.bar])
                Fixture.st_earlier eq_refl) as (_ & Hnet & Hout & _).
  split; [exact Hnet | exact Hout].
Defined.

(** The other way to abort: an input that does not parse, is not an array
    or has an element without title or systemName. No request is issued and
    the output list stays as it was. *)
Lemma invalid_input_aborts net env st :
  credentials_present env ->
  (exists e, match parse_games (inputJson env) with
             | Ok items => validate items
             | Throw e' => Throw e'
             end = Throw e) ->
  fst (processGames net env st) = Ok tt
  /\ network_calls (events (snd (processGames net env st))) = network_calls (events st)
  /\ outputJson (ui (snd (processGames net env st))) = outputJson (ui st)
  /\ error (ui (snd (processGames net env st))) <> EmptyString.
Proof.
  intros Hc (e & He).
  destruct (credential_checks_pass env Hc) as [C1 C2].
  unfold processGames. rewrite C1, C2.
  destruct st as [ev [o p er c t] g].
  assert (Hmsg : error_message e <> EmptyString).
  { destruct (parse_games (inputJson env)) as [items|e'] eqn:Ep.
    - clear -He. induction items as [|g items IH]; [discriminate|].
      cbn [validate] in He.
      destruct (negb (truthy (title g)) || negb (truthy (systemName g))).
      + injection He as <-. discriminate.
      + exact (IH He).
    - injection He as <-.
      destruct (inputJson env); cbn in Ep; try discriminate;
        injection Ep as <-; discriminate. }
  destruct (parse_games (inputJson env)) as [items|e'] eqn:Ep.
  - run_m. rewrite He. run_m.
    repeat split; [|exact Hmsg].
    unfold network_calls. rewrite filter_app. cbn. apply app_nil_r.
  - injection He as ->. run_m.
    repeat split; [|exact Hmsg].
    unfold network_calls. rewrite filter_app. cbn. apply app_nil_r.
Qed.

(** Empty input array: empty output array, no network call. *)
Example empty_input_completes :
  outputJson (ui (snd (processGames Fixture.rawg_net (Fixture.env_rawg [])
                         Fixture.st_earlier))) = []
  /\ network_calls (events (snd (processGames Fixture.rawg_net (Fixture.env_rawg [])
                                  Fixture.st_earlier))) = [].
Proof. split; reflexivity. Qed.

(** C9, as stated, fails: with RAWG answering "Foo" by an image path with no
    scheme and "Bar" by no game, the output holds one item whose [imageUrl]
    is a string that is not an absolute URL and one whose [imageUrl] is
    present with the value [undefined]; neither is "absent or an absolute
    URL". *)
Lemma C9_output_neither_absent_nor_url :
  outputJson (ui (snd (processGames Fixture.rawg_net
                         (Fixture.env_rawg [Fixture.foo; Fixture.baz]) Fixture.st0)))
  = [mkGameItem "Foo" "Nintendo GameCube" (Str "/media/games/foo.jpg");
     mkGameItem "Baz" "Sega Saturn" Undefined]
  /\ ~ Forall absent_or_absolute_url
         (outputJson (ui (snd (processGames Fixture.rawg_net
                                 (Fixture.env_rawg [Fixture.foo; Fixture.baz])
                                 Fixture.st0)))).
Proof.
  assert (E : outputJson (ui (snd (processGames Fixture.rawg_net
                         (Fixture.env_rawg [Fixture.foo; Fixture.baz]) Fixture.st0)))
              = [mkGameItem "Foo" "Nintendo GameCube" (Str "/media/games/foo.jpg");
                 mkGameItem "Baz" "Sega Saturn" Undefined]) by (vm_compute; reflexivity).
  split; [exact E|]. rewrite E. intro H.
  inversion H as [|o l [Ha | (s & Hs & _ & Hsch)] _]; subst.
  - discriminate Ha.
  - cbn in Hs. injection Hs as <-. vm_compute in Hsch. discriminate.
Qed.

(** C9, amended. In a run on a valid input that passes the credential check,
    the [imageUrl] of every output item is never the empty string: it is
    either the value [undefined] (a property that serialisation leaves out)
    or a non-empty string; with IGDB that string is
    https://images.igdb.com/igdb/image/upload/t_cover_big/<image_id>.jpg.
    With RAWG and TheGamesDB the string comes from the provider's payload and
    is not checked to be a URL. *)
Theorem C9_imageUrl_undefined_or_nonempty net env st items :
  inputJson env = ParsedArray items ->
  well_formed items ->
  credentials_present env ->
  Forall (undefined_or_cover env) (outputJson (ui (snd (processGames net env st)))).
Proof.
  intros Hin Hwf Hc.
  destruct (processGames_result net env st items Hin Hwf Hc)
    as (outs & evs & toast & _ & Hout & _ & _ & _ & Hall & _).
  rewrite Hout. clear Hout Hin Hwf.
  induction Hall as [|g o l1 l2 (url & -> & Hu) _ IH]; [constructor|].
  constructor; [|exact IH].
  apply with_cover_undefined_or_cover. exact Hu.
Qed.

Lemma C9_imageUrl_undefined_or_nonempty_witness :
  Forall (undefined_or_cover (Fixture.env_igdb [Fixture.foo; Fixture.bar]))
    (outputJson (ui (snd (processGames Fixture.igdb_net
                            (Fixture.env_igdb [Fixture.foo; Fixture.bar])
                            Fixture.st0)))).
Proof.
  apply (C9_imageUrl_undefined_or_nonempty Fixture.igdb_net
           (Fixture.env_igdb [Fixture.foo; Fixture.bar]) Fixture.st0
           [Fixture.foo; Fixture.bar]).
  - reflexivity.
  - repeat constructor; discriminate.
  - split; discriminate.
Defined.
(** ** Image resolution for TheGamesDB *)

Lemma gameImagesUrl_chosen base gi :
  ImagePolicy.chosen base gi (gameImagesUrl base gi).
Proof.
  unfold gameImagesUrl, boxartUrl.
  destruct (images_boxart gi) as [bl|] eqn:Eb.
  - destruct (find (fun img => includes (filename img) "front") bl) as [img|] eqn:Ef.
    + apply ImagePolicy.chosen_front. unfold ImagePolicy.boxart_list. rewrite Eb.
      eapply find_first_such; [|exact Ef]. intro x. reflexivity.
    + destruct bl as [|first rest].
      * destruct (images_screenshots gi) as [[|s ss]|] eqn:Es.
        -- apply ImagePolicy.chosen_none; unfold ImagePolicy.boxart_list,
             ImagePolicy.screenshot_list; rewrite ?Eb, ?Es; reflexivity.
        -- eapply ImagePolicy.chosen_first_screenshot;
             unfold ImagePolicy.boxart_list, ImagePolicy.screenshot_list;
             rewrite ?Eb, ?Es; reflexivity.
        -- apply ImagePolicy.chosen_none; unfold ImagePolicy.boxart_list,
             ImagePolicy.screenshot_list; rewrite ?Eb, ?Es; reflexivity.
      * eapply ImagePolicy.chosen_first_boxart;
          unfold ImagePolicy.boxart_list; rewrite Eb; [reflexivity|].
        intros x Hx Hf. unfold ImagePolicy.is_front in Hf.
        rewrite (find_none _ _ Ef x Hx) in Hf. discriminate.
  - destruct (images_screenshots gi) as [[|s ss]|] eqn:Es.
    + apply ImagePolicy.chosen_none; unfold ImagePolicy.boxart_list,
        ImagePolicy.screenshot_list; rewrite ?Eb, ?Es; reflexivity.
    + eapply ImagePolicy.chosen_first_screenshot;
        unfold ImagePolicy.boxart_list, ImagePolicy.screenshot_list;
        rewrite ?Eb, ?Es; reflexivity.
    + apply ImagePolicy.chosen_none; unfold ImagePolicy.boxart_list,
        ImagePolicy.screenshot_list; rewrite ?Eb, ?Es; reflexivity.
Qed.

Lemma status_ok_ok code body :
  status_ok code -> negb (ok (mkHttpResponse code body)) = false.
Proof.
  unfold status_ok, ok. cbn [status]. intros [H1 H2].
  apply Z.leb_le in H1, H2. rewrite H1, H2. reflexivity.
Qed.

(** Symbolic execution against [tgdb_server], where each response is known. *)
Ltac tgdb_step :=
  lazymatch goal with
  | |- wp (bind _ _) _ _ => apply wp_bind
  | |- wp (try_catch _ _) _ _ => apply wp_try_catch
  | |- wp (ret _) _ _ => apply wp_ret
  | |- wp (throw _) _ _ => apply wp_throw
  | |- wp (lift _) _ _ =>
      apply wp_lift;
      cbv beta iota delta
        [join_ids data_data_games imagesData_entry tgdb_data games images_data base_url]
  | |- wp (fetch (tgdb_server _ _) _) _ _ =>
      apply wp_fetch;
      let resp := fresh "resp" in
      let E := fresh "Enet" in
      intros resp E; unfold tgdb_server in E; cbn in E; subst resp;
      unfold tgdb_search_response, tgdb_images_response
  | |- wp (if negb (ok _) then _ else _) _ _ => rewrite status_ok_ok by assumption
  | |- wp (response_json _) _ _ =>
      unfold response_json; cbv beta iota delta [response_body]
  | |- wp (if length_gt0 ?p then _ else _) _ _ => destruct (length_gt0 p)
  | |- wp (match ?x with _ => _ end) _ _ =>
      match goal with
      | H : x = _ |- _ => rewrite H
      end
  end; cbv beta iota.

Lemma tgdb_lookup_with_front title sys key st status first rest ids
      status2 base entries gi images :
  truthy key = true ->
  status_ok status ->
  lookupPlatformIds TGDB_PLATFORM_MAPPING (toLowerCase sys) = IdList ids ->
  has_front (bestMatchTGDB title (IdList ids) first (first :: rest)) = true ->
  status_ok status2 ->
  own entries (toString (tgdb_id (bestMatchTGDB title (IdList ids) first (first :: rest))))
  = Some gi ->
  images = tgdb_images_response status2 base entries ->
  fst (fetchGameCoverFromTheGamesDB
         (tgdb_server (tgdb_search_response status (first :: rest)) images)
         title sys (Some key) st)
  = Ok (gameImagesUrl base gi).
Proof.
  intros Hkey Hst Hlook Hfront Hst2 Hown ->.
  match goal with
  | |- fst (?m st) = ?v => change (wp m st (fun r _ => r = v))
  end.
  unfold fetchGameCoverFromTheGamesDB. cbn [truthy_opt negb]. rewrite Hkey.
  cbn [negb]. cbv zeta. rewrite Hlook.
  unfold has_front in Hfront.
  destruct (boxart (bestMatchTGDB title (IdList ids) first (first :: rest)))
    as [[[f|] b]|] eqn:Ebox; try discriminate.
  all: repeat tgdb_step.
  all: rewrite Hown; cbv beta iota; apply wp_ret; reflexivity.
Qed.

Lemma tgdb_lookup_without_front title sys key st code first rest ids images :
  truthy key = true ->
  status_ok code ->
  lookupPlatformIds TGDB_PLATFORM_MAPPING (toLowerCase sys) = IdList ids ->
  has_front (bestMatchTGDB title (IdList ids) first (first :: rest)) = false ->
  fst (fetchGameCoverFromTheGamesDB
         (tgdb_server (tgdb_search_response code (first :: rest)) images)
         title sys (Some key) st)
  = Ok EmptyString
  /\ List.length (network_calls (events
        (snd (fetchGameCoverFromTheGamesDB
                (tgdb_server (tgdb_search_response code (first :: rest)) images)
                title sys (Some key) st))))
     = List.length (network_calls (events st)) + 1.
Proof.
  intros Hkey Hst Hlook Hfront.
  match goal with
  | |- fst (?m st) = ?v /\ _ =>
      change (wp m st (fun r st' =>
                r = v /\ List.length (network_calls (events st'))
                         = List.length (network_calls (events st)) + 1))
  end.
  unfold fetchGameCoverFromTheGamesDB. cbn [truthy_opt negb]. rewrite Hkey.
  cbn [negb]. cbv zeta. rewrite Hlook.
  unfold has_front in Hfront.
  destruct (boxart (bestMatchTGDB title (IdList ids) first (first :: rest)))
    as [[[f|] b]|] eqn:Ebox; try discriminate.
  all: repeat tgdb_step.
  all: split; [reflexivity|].
  all: unfold network_calls, extend; cbn [events]; rewrite filter_app, length_app;
    reflexivity.
Qed.

Lemma gameImagesUrl_first_boxart base gi img others :
  ImagePolicy.boxart_list gi = img :: others ->
  (forall x, In x (ImagePolicy.boxart_list gi) -> ~ ImagePolicy.is_front x) ->
  gameImagesUrl base gi = (base ++ "/boxart/front/" ++ filename img)%string.
Proof.
  unfold ImagePolicy.boxart_list, ImagePolicy.is_front, gameImagesUrl, boxartUrl.
  destruct (images_boxart gi) as [bl|]; [|discriminate].
  intros -> Hno.
  destruct (find (fun x => includes (filename x) "front") (img :: others)) as [x|] eqn:Ef.
  - apply find_some in Ef. destruct Ef as [Hin Hx]. exfalso. exact (Hno x Hin Hx).
  - reflexivity.
Qed.

(** C7. For TheGamesDB, with a key, a search answered by a non-empty list of
    games and a platform name resolved to a list: when the selected candidate
    has a front box-art reference and the images endpoint answers with a
    collection for that candidate, the cover is built from the first box-art
    entry whose filename contains "front" if there is one, else from the
    first box-art entry if the box-art list is non-empty, else from the first
    screenshot if the screenshot list is non-empty, else there is no cover;
    when the candidate has no front box-art reference there is no cover, and
    the images endpoint is not called. *)
Theorem C7_tgdb_image_fallback_order title sys key st code first rest ids :
  truthy key = true ->
  status_ok code ->
  lookupPlatformIds TGDB_PLATFORM_MAPPING (toLowerCase sys) = IdList ids ->
  (has_front (bestMatchTGDB title (IdList ids) first (first :: rest)) = true ->
   forall code2 base entries gi,
     status_ok code2 ->
     own entries (toString (tgdb_id (bestMatchTGDB title (IdList ids) first (first :: rest))))
     = Some gi ->
     exists url,
       fst (fetchGameCoverFromTheGamesDB
              (tgdb_server (tgdb_search_response code (first :: rest))
                 (tgdb_images_response code2 base entries))
              title sys (Some key) st) = Ok url
       /\ ImagePolicy.chosen base gi url)
  /\ (has_front (bestMatchTGDB title (IdList ids) first (first :: rest)) = false ->
      forall images,
        fst (fetchGameCoverFromTheGamesDB
               (tgdb_server (tgdb_search_response code (first :: rest)) images)
               title sys (Some key) st) = Ok EmptyString
        /\ List.length (network_calls (events
             (snd (fetchGameCoverFromTheGamesDB
                     (tgdb_server (tgdb_search_response code (first :: rest)) images)
                     title sys (Some key) st))))
           = List.length (network_calls (events st)) + 1).
Proof.
  intros Hkey Hcode Hlook. split.
  - intros Hfront code2 base entries gi Hcode2 Hown.
    exists (gameImagesUrl base gi). split.
    + eapply tgdb_lookup_with_front; try eassumption. reflexivity.
    + apply gameImagesUrl_chosen.
  - intros Hfront images. eapply tgdb_lookup_without_front; eassumption.
Qed.

(** The fixture exposing only screenshots: the cover is the first
    screenshot. *)
Lemma C7_tgdb_image_fallback_order_witness :
  exists url,
    fst (fetchGameCoverFromTheGamesDB
           (tgdb_server (tgdb_search_response 200 [Fixture.tgdb_with_front])
              (tgdb_images_response 200 "https://cdn.thegamesdb.net/images/original"
                 [("42", Fixture.images_screenshots_only)]))
           "Foo" "Nintendo GameCube" (Some "key") Fixture.st0) = Ok url
    /\ ImagePolicy.chosen "https://cdn.thegamesdb.net/images/original"
         Fixture.images_screenshots_only url.
Proof.
  refine (proj1 (C7_tgdb_image_fallback_order "Foo" "Nintendo GameCube" "key"
                   Fixture.st0 200 Fixture.tgdb_with_front [] [2%Z] _ _ _)
            _ 200%Z "https://cdn.thegamesdb.net/images/original"
            [("42", Fixture.images_screenshots_only)]
            Fixture.images_screenshots_only _ _).
  - reflexivity.
  - unfold status_ok. lia.
  - reflexivity.
  - reflexivity.
  - unfold status_ok. lia.
  - reflexivity.
Defined.

(** C10. For TheGamesDB, when the lookup reaches the image collection of
    the selected candidate and no box-art filename contains "front" while the
    box-art list is non-empty, the returned URL is the base URL, the fixed
    segment "/boxart/front/", and the filename of the first box-art entry,
    whatever kind of box art that entry is. *)
Theorem C10_first_boxart_under_front_path
    title sys key st code first rest ids code2 base entries gi img others :
  truthy key = true ->
  status_ok code ->
  lookupPlatformIds TGDB_PLATFORM_MAPPING (toLowerCase sys) = IdList ids ->
  has_front (bestMatchTGDB title (IdList ids) first (first :: rest)) = true ->
  status_ok code2 ->
  own entries (toString (tgdb_id (bestMatchTGDB title (IdList ids) first (first :: rest))))
  = Some gi ->
  ImagePolicy.boxart_list gi = img :: others ->
  (forall x, In x (ImagePolicy.boxart_list gi) -> ~ ImagePolicy.is_front x) ->
  fst (fetchGameCoverFromTheGamesDB
         (tgdb_server (tgdb_search_response code (first :: rest))
            (tgdb_images_response code2 base entries))
         title sys (Some key) st)
  = Ok (base ++ "/boxart/front/" ++ filename img)%string.
Proof.
  intros Hkey Hcode Hlook Hfront Hcode2 Hown Hbox Hno.
  rewrite <- (gameImagesUrl_first_boxart base gi img others Hbox Hno).
  eapply tgdb_lookup_with_front; try eassumption. reflexivity.
Qed.

(** With two back covers and no front cover in the collection, the URL
    still says "front". *)
Lemma C10_first_boxart_under_front_path_witness :
  fst (fetchGameCoverFromTheGamesDB
         (tgdb_server (tgdb_search_response 200 [Fixture.tgdb_with_front])
            (tgdb_images_response 200 "https://cdn.thegamesdb.net/images/original"
               [("42", Fixture.images_back_only)]))
         "Foo" "Nintendo GameCube" (Some "key") Fixture.st0)
  = Ok "https://cdn.thegamesdb.net/images/original/boxart/front/boxart/back/42-1.jpg".
Proof.
  refine (C10_first_boxart_under_front_path "Foo" "Nintendo GameCube" "key"
            Fixture.st0 200 Fixture.tgdb_with_front [] [2%Z] 200
            "https://cdn.thegamesdb.net/images/original"
            [("42", Fixture.images_back_only)] Fixture.images_back_only
            (mkTGDBImageRef "boxart/back/42-1.jpg" "640x480")
            [mkTGDBImageRef "boxart/back/42-2.jpg" "640x480"] _ _ _ _ _ _ _ _).
  - reflexivity.
  - unfold status_ok. lia.
  - reflexivity.
  - reflexivity.
  - unfold status_ok. lia.
  - reflexivity.
  - reflexivity.
  - intros x [<- | [<- | []]]; unfold ImagePolicy.is_front; cbn; discriminate.
Defined.

(** ** Platform normalisation *)

Lemma toLowerAscii_idempotent c : toLowerAscii (toLowerAscii c) = toLowerAscii c.
Proof.
  destruct c as [[] [] [] [] [] [] [] []]; reflexivity.
Qed.

Lemma same_letter_lower c1 c2 :
  same_letter c1 c2 = true -> toLowerAscii c1 = toLowerAscii c2.
Proof.
  unfold same_letter. intro H.
  apply orb_true_iff in H. destruct H as [H | H].
  - apply orb_true_iff in H. destruct H as [H | H].
    + apply Ascii.eqb_eq in H. congruence.
    + apply Ascii.eqb_eq in H. subst c2. symmetry. apply toLowerAscii_idempotent.
  - apply Ascii.eqb_eq in H. subst c1. apply toLowerAscii_idempotent.
Qed.

Lemma differ_only_in_case_lower s1 :
  forall s2, differ_only_in_case s1 s2 = true -> toLowerCase s1 = toLowerCase s2.
Proof.
  induction s1 as [|c1 r1 IH]; intros [|c2 r2] H; try discriminate; [reflexivity|].
  cbn in H. apply andb_true_iff in H. destruct H as [Hc Hr].
  cbn. rewrite (same_letter_lower _ _ Hc), (IH _ Hr). reflexivity.
Qed.

(** The part of the normalisation that holds for every name: the lookup
    sees the lower-cased name only, so two names that differ only in letter
    case resolve alike, in each table. *)
Lemma lookupPlatformIds_case_insensitive (table : PlatformTable) s1 s2 :
  differ_only_in_case s1 s2 = true ->
  lookupPlatformIds table (toLowerCase s1) = lookupPlatformIds table (toLowerCase s2).
Proof. intro H. rewrite (differ_only_in_case_lower _ _ H). reflexivity. Qed.

(** A name that is neither in the table nor a member of [Object.prototype]
    resolves to the empty list. *)
Lemma lookupPlatformIds_unknown (table : PlatformTable) key :
  own table key = None ->
  own Object_prototype key = None ->
  lookupPlatformIds table key = IdList [].
Proof. unfold lookupPlatformIds. intros -> ->. reflexivity. Qed.

(** C8, the code at the failing input. The platform name "Constructor" is in
    none of the three tables, yet the lookup does not give the empty list: it
    reaches [Object.prototype.constructor], a function whose [length] is 1, so
    the length test passes and [join] raises a type error. The RAWG client
    then returns no cover without sending any request, where the same title
    under another unknown platform name is searched and gets its cover. *)
Theorem C8_constructor_reaches_the_prototype :
  own PLATFORM_MAPPING (toLowerCase "Constructor") = None
  /\ lookupPlatformIds PLATFORM_MAPPING (toLowerCase "Constructor")
     = FromPrototype (BuiltinFunction 1)
  /\ lookupPlatformIds TGDB_PLATFORM_MAPPING (toLowerCase "Constructor")
     = FromPrototype (BuiltinFunction 1)
  /\ lookupPlatformIds IGDB_PLATFORM_MAPPING (toLowerCase "Constructor")
     = FromPrototype (BuiltinFunction 1)
  /\ length_gt0 (FromPrototype (BuiltinFunction 1)) = true
  /\ join_ids (FromPrototype (BuiltinFunction 1))
     = Throw (TypeError "platformIds.join is not a function")
  /\ fetchGameCoverFromRAWG Fixture.rawg_net "Foo" "Constructor" None Fixture.st0
     = (Ok EmptyString,
        extend Fixture.st0 [EvConsoleError "Failed to fetch cover from RAWG for Foo:"])
  /\ fst (fetchGameCoverFromRAWG Fixture.rawg_net "Foo" "Unknown Console" None Fixture.st0)
     = Ok "/media/games/foo.jpg"
  /\ lookupPlatformIds PLATFORM_MAPPING (toLowerCase "Unknown Console") = IdList [].
Proof. repeat split; vm_compute; reflexivity. Qed.

(** * Further properties of the code *)

(** ** Platform lookup *)

Lemma toLowerCase_no_upper s : no_upper (toLowerCase s) = true.
Proof.
  induction s as [|c s IH]; [reflexivity|].
  cbn [toLowerCase no_upper]. rewrite IH, andb_true_r.
  destruct c as [[] [] [] [] [] [] [] []]; reflexivity.
Qed.

Lemma lookupPlatformIds_cases (table : PlatformTable) (systemName : string) :
  (exists ids, lookupPlatformIds table (toLowerCase systemName) = IdList ids)
  \/ (toLowerCase systemName = "constructor"
      /\ lookupPlatformIds table (toLowerCase systemName)
         = FromPrototype (BuiltinFunction 1))
  \/ (toLowerCase systemName = "__proto__"
      /\ lookupPlatformIds table (toLowerCase systemName)
         = FromPrototype PrototypeObject).
Proof.
  unfold lookupPlatformIds.
  destruct (own table (toLowerCase systemName)) as [ids|]; [left; eexists; reflexivity|].
  pose proof (toLowerCase_no_upper systemName) as Hlow.
  unfold Object_prototype. cbn [own].
  repeat match goal with
         | |- context [String.eqb ?k (toLowerCase systemName)] =>
             let E := fresh "E" in
             destruct (String.eqb k (toLowerCase systemName)) eqn:E;
             [apply String.eqb_eq in E; rewrite <- E in Hlow |- *;
              first [ discriminate Hlow
                    | right; left; split; reflexivity
                    | right; right; split; reflexivity ]
             | clear E]
         end.
  left. eexists. reflexivity.
Qed.

(** The filter can be built for every name but "constructor". *)
Lemma usable_unless_constructor (table : PlatformTable) (systemName : string) :
  toLowerCase systemName <> "constructor" ->
  usable (lookupPlatformIds table (toLowerCase systemName)) = true.
Proof.
  intro Hne.
  destruct (lookupPlatformIds_cases table systemName)
    as [(ids & ->) | [(E & _) | (_ & ->)]]; try reflexivity.
  contradiction.
Qed.

Lemma own_prototype_lower (systemName : string) :
  own Object_prototype (toLowerCase systemName)
  = if String.eqb "constructor" (toLowerCase systemName)
    then Some (BuiltinFunction 1)
    else if String.eqb "__proto__" (toLowerCase systemName)
         then Some PrototypeObject
         else None.
Proof.
  pose proof (toLowerCase_no_upper systemName) as Hlow.
  unfold Object_prototype. cbn [own].
  repeat match goal with
         | |- context [String.eqb ?k (toLowerCase systemName)] =>
             let E := fresh "E" in
             destruct (String.eqb k (toLowerCase systemName)) eqn:E;
             [first [ reflexivity
                    | apply String.eqb_eq in E; rewrite <- E in Hlow; discriminate Hlow ]
             |]
         end.
  reflexivity.
Qed.

(** X1. What the lookup gives, for any table and any platform name, with
    [k] the lower-cased name: the table's own list when [k] is a key of the
    table; otherwise a function of length 1 when [k] is "constructor", the
    prototype object when [k] is "__proto__", and the empty list for every
    other name. The other members of [Object.prototype] have an upper-case
    letter and are never reached after [toLowerCase]. *)
Theorem X1_lookup_is_a_list_but_for_two_names (table : PlatformTable) (systemName : string) :
  lookupPlatformIds table (toLowerCase systemName)
  = match own table (toLowerCase systemName) with
    | Some ids => IdList ids
    | None =>
        if String.eqb "constructor" (toLowerCase systemName)
        then FromPrototype (BuiltinFunction 1)
        else if String.eqb "__proto__" (toLowerCase systemName)
             then FromPrototype PrototypeObject
             else IdList []
    end.
Proof.
  unfold lookupPlatformIds.
  destruct (own table (toLowerCase systemName)) as [ids|]; [reflexivity|].
  rewrite own_prototype_lower.
  destruct (String.eqb "constructor" (toLowerCase systemName)); [reflexivity|].
  destruct (String.eqb "__proto__" (toLowerCase systemName)); reflexivity.
Qed.

Lemma table_entries_sound (table : PlatformTable) :
  In table platform_tables ->
  forall k ids, In (k, ids) table ->
    own table k = Some ids /\ toLowerCase k = k /\ ids <> [].
Proof.
  intros Ht k ids Hin.
  unfold platform_tables in Ht.
  destruct Ht as [<- | [<- | [<- | []]]];
    unfold PLATFORM_MAPPING, TGDB_PLATFORM_MAPPING, IGDB_PLATFORM_MAPPING in Hin;
    cbn [In] in Hin;
    repeat (destruct Hin as [Hin | Hin];
            [injection Hin as <- <-; split; [reflexivity | split; [reflexivity | discriminate]]|]);
    destruct Hin.
Qed.

(** X2. In each of the three tables, every entry is reached by its platform
    name written in any letter case: the lookup gives the entry's list, which
    is not empty (so the platform filter is applied). *)
Theorem X2_table_entries_reached_in_any_case
    (table : PlatformTable) (k : string) (ids : list Z) (systemName : string) :
  In table platform_tables ->
  In (k, ids) table ->
  differ_only_in_case systemName k = true ->
  lookupPlatformIds table (toLowerCase systemName) = IdList ids
  /\ length_gt0 (IdList ids) = true.
Proof.
  intros Ht Hin Hcase.
  destruct (table_entries_sound table Ht k ids Hin) as (Hown & Hk & Hne).
  rewrite (differ_only_in_case_lower _ _ Hcase), Hk.
  unfold lookupPlatformIds. rewrite Hown. split; [reflexivity|].
  apply length_gt0_IdList. exact Hne.
Qed.

Lemma X2_table_entries_reached_in_any_case_witness :
  lookupPlatformIds TGDB_PLATFORM_MAPPING (toLowerCase "SONY PlayStation 3")
  = IdList [4911%Z]
  /\ length_gt0 (IdList [4911%Z]) = true.
Proof.
  apply (X2_table_entries_reached_in_any_case TGDB_PLATFORM_MAPPING
           "sony playstation 3" [4911%Z] "SONY PlayStation 3").
  - right. left. reflexivity.
  - do 13 right. left. reflexivity.
  - reflexivity.
Defined.

(** ** The provider calls as functions of the responses *)

Ltac ok_facts :=
  repeat match goal with
         | H : negb (ok ?r) = true |- _ => apply negb_true_iff in H
         | H : negb (ok ?r) = false |- _ => apply negb_false_iff in H
         end.

Ltac open_payloads :=
  repeat match goal with
         | p : Payload |- _ => destruct p; cbn in *; try discriminate
         | r : RAWGResponse |- _ => destruct r; cbn in *
         | r : TheGamesDBResponse |- _ => destruct r; cbn in *
         | r : TheGamesDBData |- _ => destruct r; cbn in *
         | r : TheGamesDBImageData |- _ => destruct r; cbn in *
         | r : IGDBAuthResponse |- _ => destruct r; cbn in *
         | H : Ok _ = Ok _ |- _ => injection H as H
         | H : Some _ = Some _ |- _ => injection H as H
         | H : ?x = _ |- _ => is_var x; subst x
         | H : _ = ?x |- _ => is_var x; subst x
         end.

Ltac use_responses :=
  ok_facts;
  repeat match goal with
         | H : ok ?r = _ |- _ => rewrite H
         | H : response_body ?r = _ |- _ => rewrite H
         end.

Lemma fetchGameCoverFromRAWG_trace net title sys key st :
  let p := lookupPlatformIds PLATFORM_MAPPING (toLowerCase sys) in
  let req := rawg_request title key (filter_ids p) in
  wp (fetchGameCoverFromRAWG net title sys key) st
    (fun r st' => exists evs,
         r = Ok (if usable p then rawg_cover title p (net (events st) req)
                 else EmptyString)
         /\ st' = extend st evs
         /\ network_calls evs
            = (if usable p then [EvFetch req (net (events st) req)] else [])).
Proof.
  intros p req. subst req.
  unfold fetchGameCoverFromRAWG, rawg_request. cbv zeta. fold p.
  destruct (truthy_opt key) eqn:Hkey.
  all: destruct p as [[|i ids]|[[|n]|]] eqn:Ep;
    cbn [usable filter_ids length_gt0 List.length Nat.eqb negb join_ids platform_pair app].
  all: repeat wp_step.
  all: rewrite ?extend_extend; eexists; split; [|split; [reflexivity|]].
  all: cbn [app] in *; rewrite ?Enet; unfold network_calls; cbn [filter is_fetch app];
    try reflexivity.
  all: unfold rawg_cover; use_responses; try reflexivity.
  all: open_payloads; try reflexivity.
Qed.

Lemma getIGDBAccessToken_trace net clientId clientSecret st :
  let req := token_request clientId clientSecret in
  wp (getIGDBAccessToken net clientId clientSecret) st
    (fun r st' => exists evs,
         r = token_result (net (events st) req)
         /\ st' = extend st evs
         /\ network_calls evs = [EvFetch req (net (events st) req)]
         /\ (forall a, r = Ok a -> evs = [EvFetch req (net (events st) req)])).
Proof.
  intros req. subst req. unfold getIGDBAccessToken, token_request.
  repeat wp_step.
  all: rewrite ?extend_extend; eexists; split; [|split; [reflexivity|]].
  all: cbn [app] in *; rewrite ?Enet; unfold network_calls; cbn [filter is_fetch app].
  all: unfold token_result; use_responses.
  all: try (split; [reflexivity | intros ? ?; try discriminate; reflexivity]).
  all: open_payloads.
  all: try (split; [reflexivity | intros ? ?; try discriminate; reflexivity]).
  all: try reflexivity; congruence.
Qed.

Lemma fetchGameCoverFromTheGamesDB_trace net title sys key st :
  truthy key = true ->
  let p := lookupPlatformIds TGDB_PLATFORM_MAPPING (toLowerCase sys) in
  let req1 := tgdb_search_request title key (filter_ids p) in
  let resp1 := net (events st) req1 in
  let req2 id := tgdb_images_request key id in
  let resp2 id := net (events st ++ [EvFetch req1 resp1]) (req2 id) in
  wp (fetchGameCoverFromTheGamesDB net title sys (Some key)) st
    (fun r st' => exists evs,
         st' = extend st evs
         /\ if usable p then
              match tgdb_candidate title p resp1 with
              | Some best =>
                  if has_front best then
                    r = Ok (tgdb_cover (tgdb_id best) (resp2 (tgdb_id best)))
                    /\ network_calls evs
                       = [EvFetch req1 resp1;
                          EvFetch (req2 (tgdb_id best)) (resp2 (tgdb_id best))]
                  else r = Ok EmptyString /\ network_calls evs = [EvFetch req1 resp1]
              | None => r = Ok EmptyString /\ network_calls evs = [EvFetch req1 resp1]
              end
            else r = Ok EmptyString /\ network_calls evs = []).
Proof.
  intros Hkey p req1 resp1 req2 resp2. subst req1 resp1 req2 resp2.
  unfold fetchGameCoverFromTheGamesDB, tgdb_search_request, tgdb_images_request.
  cbn [truthy_opt template_opt]. rewrite Hkey. cbn [negb]. cbv zeta. fold p.
  destruct p as [[|i ids]|[[|n]|]] eqn:Ep;
    cbn [usable filter_ids length_gt0 List.length Nat.eqb negb join_ids platform_pair app].
  all: repeat wp_step.
  all: rewrite ?extend_extend; eexists; split; [reflexivity|].
  all: cbn [app append extend events] in *; rewrite ?Enet; unfold network_calls;
    cbn [filter is_fetch app]; try (split; reflexivity).
  all: unfold tgdb_candidate; use_responses; try (split; reflexivity).
  all: open_payloads;
    repeat match goal with
           | H : match ?x with _ => _ end = _ |- _ =>
               is_var x; destruct x; cbn in *; try discriminate
           end;
    open_payloads; try (split; reflexivity).
  all: unfold has_front;
    repeat match goal with
           | H : boxart _ = _ |- _ => rewrite H
           end; try (split; reflexivity).
  all: rewrite ?Enet0; try (split; reflexivity).
  all: unfold tgdb_cover; use_responses; try (split; reflexivity).
  all: repeat match goal with
             | H : match own ?l ?k with _ => _ end = _ |- _ =>
                 destruct (own l k); try discriminate; try (injection H as <- <-)
             end; split; reflexivity.
Qed.

Lemma fetchGameCoverFromIGDB_trace net title sys clientId clientSecret st :
  truthy clientId = true ->
  truthy clientSecret = true ->
  let p := lookupPlatformIds IGDB_PLATFORM_MAPPING (toLowerCase sys) in
  let req0 := token_request clientId clientSecret in
  let resp0 := net (events st) req0 in
  let req1 tok := igdb_search_request title clientId tok (filter_ids p) in
  let resp1 tok := net (events st ++ [EvFetch req0 resp0]) (req1 tok) in
  wp (fetchGameCoverFromIGDB net title sys (Some clientId) (Some clientSecret)) st
    (fun r st' => exists evs,
         st' = extend st evs
         /\ match token_result resp0 with
            | Throw _ => r = Ok EmptyString /\ network_calls evs = [EvFetch req0 resp0]
            | Ok tok =>
                if usable p then
                  r = Ok (igdb_cover title p (resp1 tok))
                  /\ network_calls evs
                     = [EvFetch req0 resp0; EvFetch (req1 tok) (resp1 tok)]
                else r = Ok EmptyString /\ network_calls evs = [EvFetch req0 resp0]
            end).
Proof.
  intros Hid Hsecret p req0 resp0 req1 resp1.
  unfold fetchGameCoverFromIGDB. cbn [truthy_opt template_opt].
  rewrite Hid, Hsecret. cbn [negb orb]. cbv zeta. fold p.
  apply wp_try_catch. apply wp_bind.
  eapply wp_weaken; [|apply getIGDBAccessToken_trace].
  cbv zeta. fold req0 resp0.
  intros r st' (evs0 & -> & -> & Hcalls & Hexact).
  destruct (token_result resp0) as [tok|e] eqn:Etok.
  - rewrite (Hexact tok eq_refl). clear Hexact Hcalls.
    subst req1 resp1. unfold igdb_search_request, igdb_query.
    destruct p as [[|i ids]|[[|n]|]] eqn:Ep;
      cbn [usable filter_ids length_gt0 List.length Nat.eqb negb join_ids].
    all: repeat wp_step.
    all: rewrite ?extend_extend; eexists; split; [reflexivity|].
    all: cbn [app append extend events] in *; rewrite ?Enet; unfold network_calls;
      cbn [filter is_fetch app]; try (split; reflexivity).
    all: unfold igdb_cover; use_responses; try (split; reflexivity).
    all: open_payloads; try (split; reflexivity).
    all: repeat match goal with
                | H : cover _ = _ |- _ => rewrite H
                | H : truthy _ = _ |- _ => rewrite H
                end; try (split; reflexivity).
  - repeat wp_step. rewrite extend_extend. eexists. split; [reflexivity|].
    split; [reflexivity|].
    unfold network_calls in *. rewrite filter_app, Hcalls. reflexivity.
Qed.

Lemma network_calls_extend st evs :
  network_calls (events (extend st evs)) = network_calls (events st) ++ network_calls evs.
Proof. unfold network_calls, extend. cbn [events]. apply filter_app. Qed.

(** ** RAWG *)

(** X3. For every platform name but "constructor", key and network, the
    RAWG lookup sends exactly one request: a GET to the games endpoint with
    [search] set to the title and [page_size] to 10, the [key] parameter only
    when a non-empty key was given, and the [platforms] parameter only when
    the platform resolved to identifiers. *)
Theorem X3_rawg_sends_one_request net title sys key st :
  toLowerCase sys <> "constructor" ->
  network_calls (events (snd (fetchGameCoverFromRAWG net title sys key st)))
  = network_calls (events st)
    ++ [EvFetch
          (rawg_request title key
             (filter_ids (lookupPlatformIds PLATFORM_MAPPING (toLowerCase sys))))
          (net (events st)
             (rawg_request title key
                (filter_ids (lookupPlatformIds PLATFORM_MAPPING (toLowerCase sys)))))].
Proof.
  intro Hne.
  pose proof (fetchGameCoverFromRAWG_trace net title sys key st) as H.
  cbv zeta in H. unfold wp in H. destruct H as (evs & _ & -> & Hcalls).
  rewrite (usable_unless_constructor _ _ Hne) in Hcalls.
  rewrite network_calls_extend, Hcalls. reflexivity.
Qed.

Lemma X3_rawg_sends_one_request_witness :
  network_calls
    (events (snd (fetchGameCoverFromRAWG Fixture.rawg_net "Foo" "Nintendo GameCube"
                    (Some "secret") Fixture.st0)))
  = [EvFetch
       (mkRequest GET "https://api.rawg.io/api/games"
          [("search", "Foo"); ("page_size", "10"); ("key", "secret"); ("platforms", "11")]
          [] NoBody)
       (Http (mkHttpResponse 200
                (Json (PayloadRAWG (mkRAWGResponse (Some [Fixture.rawg_path_only]))))))].
Proof.
  refine (X3_rawg_sends_one_request Fixture.rawg_net "Foo" "Nintendo GameCube"
            (Some "secret") Fixture.st0 _).
  vm_compute. discriminate.
Defined.

(** X4. When the RAWG search is answered with a 2xx status and a non-empty
    result list, the lookup returns the [background_image] of the candidate
    selected from that list (the empty string when the candidate has none). *)
Theorem X4_rawg_returns_the_image_of_the_best_match net title sys key st r first rest :
  toLowerCase sys <> "constructor" ->
  net (events st)
    (rawg_request title key
       (filter_ids (lookupPlatformIds PLATFORM_MAPPING (toLowerCase sys)))) = Http r ->
  ok r = true ->
  response_body r = Json (PayloadRAWG (mkRAWGResponse (Some (first :: rest)))) ->
  fst (fetchGameCoverFromRAWG net title sys key st)
  = Ok (or_empty
          (background_image
             (bestMatchRAWG title (lookupPlatformIds PLATFORM_MAPPING (toLowerCase sys))
                first (first :: rest)))).
Proof.
  intros Hne Hnet Hok Hbody.
  pose proof (fetchGameCoverFromRAWG_trace net title sys key st) as H.
  cbv zeta in H. unfold wp in H. destruct H as (evs & -> & _).
  rewrite (usable_unless_constructor _ _ Hne), Hnet.
  unfold rawg_cover. rewrite Hok, Hbody. reflexivity.
Qed.

Lemma X4_rawg_returns_the_image_of_the_best_match_witness :
  fst (fetchGameCoverFromRAWG
         (fun _ _ => Http (mkHttpResponse 200
            (Json (PayloadRAWG (mkRAWGResponse
               (Some [Fixture.rawg_foo2; Fixture.rawg_foo]))))))
         "foo" "Nintendo 64" None Fixture.st0)
  = Ok "https://media.rawg.io/media/games/foo.jpg".
Proof.
  refine (X4_rawg_returns_the_image_of_the_best_match
            (fun _ _ => Http (mkHttpResponse 200
               (Json (PayloadRAWG (mkRAWGResponse
                  (Some [Fixture.rawg_foo2; Fixture.rawg_foo]))))))
            "foo" "Nintendo 64" None Fixture.st0
            (mkHttpResponse 200
               (Json (PayloadRAWG (mkRAWGResponse
                  (Some [Fixture.rawg_foo2; Fixture.rawg_foo])))))
            Fixture.rawg_foo2 [Fixture.rawg_foo] _ _ _ _).
  - vm_compute. discriminate.
  - reflexivity.
  - reflexivity.
  - reflexivity.
Defined.

(** ** TheGamesDB *)

(** X5. With a key and for every platform name but "constructor", the
    TheGamesDB lookup sends the search request (key, title, the three fields,
    and the platform filter when the platform resolved to identifiers), and
    then the images request, keyed by the selected candidate's id, exactly
    when the search gave a candidate with a front box-art reference; the
    images request sees the search exchange in its history. *)
Theorem X5_tgdb_requests net title sys key st :
  truthy key = true ->
  toLowerCase sys <> "constructor" ->
  let p := lookupPlatformIds TGDB_PLATFORM_MAPPING (toLowerCase sys) in
  let req1 := tgdb_search_request title key (filter_ids p) in
  let resp1 := net (events st) req1 in
  let req2 id := tgdb_images_request key id in
  let resp2 id := net (events st ++ [EvFetch req1 resp1]) (req2 id) in
  network_calls (events (snd (fetchGameCoverFromTheGamesDB net title sys (Some key) st)))
  = network_calls (events st)
    ++ EvFetch req1 resp1
       :: match tgdb_candidate title p resp1 with
          | Some best =>
              if has_front best
              then [EvFetch (req2 (tgdb_id best)) (resp2 (tgdb_id best))]
              else []
          | None => []
          end.
Proof.
  intros Hkey Hne.
  pose proof (fetchGameCoverFromTheGamesDB_trace net title sys key st Hkey) as H.
  cbv zeta in H |- *. unfold wp in H. destruct H as (evs & -> & H).
  rewrite (usable_unless_constructor _ _ Hne) in H.
  rewrite network_calls_extend. f_equal.
  destruct (tgdb_candidate title _ _) as [best|]; [|apply H].
  destruct (has_front best); apply H.
Qed.

Lemma X5_tgdb_requests_witness :
  network_calls
    (events (snd (fetchGameCoverFromTheGamesDB
                    (tgdb_server (tgdb_search_response 200 [Fixture.tgdb_with_front])
                       (tgdb_images_response 200 "https://cdn.thegamesdb.net/images/original"
                          [("42", Fixture.images_back_only)]))
                    "Foo" "Nintendo GameCube" (Some "key") Fixture.st0)))
  = [EvFetch (tgdb_search_request "Foo" "key" [2%Z])
       (tgdb_search_response 200 [Fixture.tgdb_with_front]);
     EvFetch (tgdb_images_request "key" 42)
       (tgdb_images_response 200 "https://cdn.thegamesdb.net/images/original"
          [("42", Fixture.images_back_only)])].
Proof.
  refine (X5_tgdb_requests
            (tgdb_server (tgdb_search_response 200 [Fixture.tgdb_with_front])
               (tgdb_images_response 200 "https://cdn.thegamesdb.net/images/original"
                  [("42", Fixture.images_back_only)]))
            "Foo" "Nintendo GameCube" "key" Fixture.st0 _ _).
  - reflexivity.
  - vm_compute. discriminate.
Defined.

(** ** IGDB *)

(** X6. [getIGDBAccessToken] sends exactly one request, the POST of the
    client id, the client secret and the grant type to the token endpoint.
    It returns the [access_token] of a 2xx JSON response and, on a network
    error, a status outside 200..299, a body that is not JSON or a null
    body, throws that very error on to its caller. *)
Theorem X6_token_exchange net clientId clientSecret st :
  fst (getIGDBAccessToken net clientId clientSecret st)
  = token_result (net (events st) (token_request clientId clientSecret))
  /\ network_calls (events (snd (getIGDBAccessToken net clientId clientSecret st)))
     = network_calls (events st)
       ++ [EvFetch (token_request clientId clientSecret)
             (net (events st) (token_request clientId clientSecret))].
Proof.
  pose proof (getIGDBAccessToken_trace net clientId clientSecret st) as H.
  cbv zeta in H. unfold wp in H. destruct H as (evs & -> & -> & Hcalls & _).
  split; [reflexivity|]. rewrite network_calls_extend, Hcalls. reflexivity.
Qed.

(** X7. When the token exchange fails, the IGDB lookup gives no cover and
    sends no search: the token request is its only network call. *)
Theorem X7_igdb_no_search_without_token net title sys clientId clientSecret st e :
  truthy clientId = true ->
  truthy clientSecret = true ->
  token_result (net (events st) (token_request clientId clientSecret)) = Throw e ->
  fst (fetchGameCoverFromIGDB net title sys (Some clientId) (Some clientSecret) st)
  = Ok EmptyString
  /\ network_calls
       (events (snd (fetchGameCoverFromIGDB net title sys (Some clientId)
                       (Some clientSecret) st)))
     = network_calls (events st)
       ++ [EvFetch (token_request clientId clientSecret)
             (net (events st) (token_request clientId clientSecret))].
Proof.
  intros Hid Hsecret Htok.
  pose proof (fetchGameCoverFromIGDB_trace net title sys clientId clientSecret st
                Hid Hsecret) as H.
  cbv zeta in H. unfold wp in H. destruct H as (evs & -> & H).
  rewrite Htok in H. destruct H as [-> Hcalls].
  split; [reflexivity|]. rewrite network_calls_extend, Hcalls. reflexivity.
Qed.

Lemma X7_igdb_no_search_without_token_witness :
  fst (fetchGameCoverFromIGDB (fun _ _ => Http (mkHttpResponse 401 (Json PayloadOther)))
         "Foo" "Nintendo GameCube" (Some "client") (Some "secret") Fixture.st0)
  = Ok EmptyString
  /\ network_calls
       (events (snd (fetchGameCoverFromIGDB
                       (fun _ _ => Http (mkHttpResponse 401 (Json PayloadOther)))
                       "Foo" "Nintendo GameCube" (Some "client") (Some "secret")
                       Fixture.st0)))
     = [EvFetch (token_request "client" "secret")
          (Http (mkHttpResponse 401 (Json PayloadOther)))].
Proof.
  refine (X7_igdb_no_search_without_token
            (fun _ _ => Http (mkHttpResponse 401 (Json PayloadOther)))
            "Foo" "Nintendo GameCube" "client" "secret" Fixture.st0
            (ErrorMsg "IGDB Auth error: 401") _ _ _).
  - reflexivity.
  - reflexivity.
  - reflexivity.
Defined.

(** X8. When the token exchange succeeds, and for every platform name but
    "constructor", the IGDB lookup sends exactly two requests: the token
    request, then the POST of the query to the games endpoint, with the
    client id and the bearer token in its headers. The query is the title
    between double quotes, copied as it is, the field list and the limit,
    and the platform clause only when the platform resolved to identifiers. *)
Theorem X8_igdb_requests net title sys clientId clientSecret st tok :
  truthy clientId = true ->
  truthy clientSecret = true ->
  toLowerCase sys <> "constructor" ->
  token_result (net (events st) (token_request clientId clientSecret)) = Ok tok ->
  let req0 := token_request clientId clientSecret in
  let resp0 := net (events st) req0 in
  let req1 :=
    igdb_search_request title clientId tok
      (filter_ids (lookupPlatformIds IGDB_PLATFORM_MAPPING (toLowerCase sys))) in
  network_calls
    (events (snd (fetchGameCoverFromIGDB net title sys (Some clientId)
                    (Some clientSecret) st)))
  = network_calls (events st)
    ++ [EvFetch req0 resp0;
        EvFetch req1 (net (events st ++ [EvFetch req0 resp0]) req1)].
Proof.
  intros Hid Hsecret Hne Htok.
  pose proof (fetchGameCoverFromIGDB_trace net title sys clientId clientSecret st
                Hid Hsecret) as H.
  cbv zeta in H |- *. unfold wp in H. destruct H as (evs & -> & H).
  rewrite Htok, (usable_unless_constructor _ _ Hne) in H. destruct H as [_ Hcalls].
  rewrite network_calls_extend, Hcalls. reflexivity.
Qed.

Lemma X8_igdb_requests_witness :
  network_calls
    (events (snd (fetchGameCoverFromIGDB Fixture.igdb_net "Foo" "Nintendo GameCube"
                    (Some "client") (Some "secret") Fixture.st0)))
  = [EvFetch (token_request "client" "secret")
       (Http (mkHttpResponse 200
                (Json (PayloadIGDBAuth (mkIGDBAuthResponse (Some "token") 5000 "bearer")))));
     EvFetch
       (mkRequest POST "https://api.igdb.com/v4/games" []
          [("Accept", "application/json"); ("Client-ID", "client");
           ("Authorization", "Bearer token")]
          (TextBody (igdb_query "Foo" [21%Z])))
       (Http (mkHttpResponse 200 (Json (PayloadIGDBGames [Fixture.igdb_covered]))))].
Proof.
  refine (X8_igdb_requests Fixture.igdb_net "Foo" "Nintendo GameCube" "client" "secret"
            Fixture.st0 (Some "token") _ _ _ _).
  - reflexivity.
  - reflexivity.
  - vm_compute. discriminate.
  - reflexivity.
Defined.

(** X9. When the token exchange succeeds and the search is answered with a
    2xx status and a non-empty list of games, the IGDB lookup returns the
    cover URL built from the [image_id] of the selected candidate's cover,
    and no cover when that candidate has no cover or an empty [image_id];
    the [url] field of the cover is not used. *)
Theorem X9_igdb_returns_the_cover_of_the_best_match
    net title sys clientId clientSecret st tok r first rest :
  truthy clientId = true ->
  truthy clientSecret = true ->
  toLowerCase sys <> "constructor" ->
  token_result (net (events st) (token_request clientId clientSecret)) = Ok tok ->
  let p := lookupPlatformIds IGDB_PLATFORM_MAPPING (toLowerCase sys) in
  let req0 := token_request clientId clientSecret in
  net (events st ++ [EvFetch req0 (net (events st) req0)])
    (igdb_search_request title clientId tok (filter_ids p)) = Http r ->
  ok r = true ->
  response_body r = Json (PayloadIGDBGames (first :: rest)) ->
  fst (fetchGameCoverFromIGDB net title sys (Some clientId) (Some clientSecret) st)
  = Ok match cover (bestMatchIGDB title p first (first :: rest)) with
       | Some c => if truthy (image_id c) then igdb_cover_url (image_id c) else EmptyString
       | None => EmptyString
       end.
Proof.
  intros Hid Hsecret Hne Htok p req0 Hnet Hok Hbody.
  pose proof (fetchGameCoverFromIGDB_trace net title sys clientId clientSecret st
                Hid Hsecret) as H.
  cbv zeta in H. unfold wp in H. destruct H as (evs & _ & H).
  rewrite Htok, (usable_unless_constructor _ _ Hne) in H. destruct H as [-> _].
  fold p req0. rewrite Hnet. unfold igdb_cover. rewrite Hok, Hbody. reflexivity.
Qed.

Lemma X9_igdb_returns_the_cover_of_the_best_match_witness :
  fst (fetchGameCoverFromIGDB Fixture.igdb_net "Foo" "Nintendo GameCube"
         (Some "client") (Some "secret") Fixture.st0)
  = Ok "https://images.igdb.com/igdb/image/upload/t_cover_big/co1abc.jpg".
Proof.
  refine (X9_igdb_returns_the_cover_of_the_best_match Fixture.igdb_net "Foo"
            "Nintendo GameCube" "client" "secret" Fixture.st0 (Some "token")
            (mkHttpResponse 200 (Json (PayloadIGDBGames [Fixture.igdb_covered])))
            Fixture.igdb_covered [] _ _ _ _ _ _ _).
  - reflexivity.
  - reflexivity.
  - vm_compute. discriminate.
  - reflexivity.
  - reflexivity.
  - reflexivity.
  - reflexivity.
Defined.

(** ** The dispatcher *)

Lemma fetchGameCover_quiet net title sys api key secret st :
  wp (fetchGameCover net title sys api key secret) st
     (item_post st (fun url evs =>
        forallb quiet evs = true
        /\ List.length (network_calls evs) <= calls_bound api)).
Proof.
  rewrite <- (extend_nil st) at 1.
  unfold fetchGameCover.
  destruct api;
    unfold fetchGameCoverFromRAWG, fetchGameCoverFromTheGamesDB, fetchGameCoverFromIGDB,
      getIGDBAccessToken; cbv zeta.
  all: repeat wp_step.
  all: wp_leaf; split; [reflexivity | cbn; lia].
Qed.

(** X10. For every provider, credentials (present or not) and network, a
    cover lookup returns a string and never throws; it leaves the component
    state and the result array as they are and adds only network exchanges
    and console lines to the events (no toast, no pause). *)
Theorem X10_lookup_never_throws net title sys api key secret st :
  exists url evs,
    fetchGameCover net title sys api key secret st = (Ok url, extend st evs)
    /\ forallb quiet evs = true.
Proof.
  destruct (wp_item_post _ _ _ (fetchGameCover_quiet net title sys api key secret st))
    as (url & evs & E & Hq & _).
  exists url, evs. split; assumption.
Qed.

(** X11. A lookup sends at most one request with RAWG and at most two with
    TheGamesDB or IGDB, whatever the responses. *)
Theorem X11_lookup_request_bound net title sys api key secret st :
  List.length (network_calls (events (snd (fetchGameCover net title sys api key secret st))))
  <= List.length (network_calls (events st)) + calls_bound api.
Proof.
  destruct (wp_item_post _ _ _ (fetchGameCover_quiet net title sys api key secret st))
    as (url & evs & E & _ & Hb).
  rewrite E. cbn [snd]. rewrite network_calls_extend, length_app. lia.
Qed.

(** X12. A lookup with TheGamesDB and no key, or with IGDB and no client id
    or no client secret ([undefined] or empty), gives no cover and sends
    nothing: its only event is one console line. *)
Theorem X12_lookup_without_credentials net title sys api key secret st :
  call_lacks_credentials api key secret ->
  exists message,
    fetchGameCover net title sys api key secret st
    = (Ok EmptyString, extend st [EvConsoleError message]).
Proof.
  unfold call_lacks_credentials, fetchGameCover.
  destruct api; intro H; [contradiction | |].
  - unfold fetchGameCoverFromTheGamesDB. rewrite H. eexists. reflexivity.
  - unfold fetchGameCoverFromIGDB.
    assert (Hb : negb (truthy_opt key) || negb (truthy_opt secret) = true).
    { destruct H as [-> | ->]; cbn; [reflexivity | apply orb_true_r]. }
    rewrite Hb. eexists. reflexivity.
Qed.

Lemma X12_lookup_without_credentials_witness :
  exists message,
    fetchGameCover Fixture.igdb_net "Foo" "Nintendo GameCube" igdb (Some "client") None
      Fixture.st0
    = (Ok EmptyString, extend Fixture.st0 [EvConsoleError message]).
Proof.
  apply (X12_lookup_without_credentials Fixture.igdb_net "Foo" "Nintendo GameCube" igdb
           (Some "client") None Fixture.st0).
  right. reflexivity.
Defined.

(** ** The loop, paced *)

Lemma item_cover_dispatch net env game :
  item_cover net env game
  = fetchGameCover net (title game) (systemName game) (activeApi env)
      (env_key env) (env_secret env).
Proof.
  unfold item_cover, fetchGameCover, env_key, env_secret.
  destruct (activeApi env); reflexivity.
Qed.

Lemma item_cover_quiet net env game st :
  exists url evs,
    item_cover net env game st = (Ok url, extend st evs)
    /\ forallb quiet evs = true
    /\ List.length (network_calls evs) <= calls_bound (activeApi env).
Proof.
  rewrite item_cover_dispatch. apply wp_item_post. apply fetchGameCover_quiet.
Qed.

Lemma pause_delay_of env len i :
  pause env len i
  = if Nat.ltb i (len - 1) then [EvDelay (delay_of (activeApi env))] else [].
Proof. unfold pause, delay_of. destruct (activeApi env); reflexivity. Qed.

Lemma process_from_paced net env len :
  forall rest i st,
    i + List.length rest = len ->
    exists evs outs n,
      process_from net env len i rest st
      = (Ok tt, mkState (events st ++ evs) (set_count (ui st) n)
                  (gamesWithCovers st ++ outs))
      /\ paced (activeApi env) (List.length rest) evs.
Proof.
  induction rest as [|game rest IH]; intros i st Hlen.
  - exists [], [], (processedCount (ui st)). split; [|constructor].
    destruct st as [ev [o p e c t] g]. cbn. rewrite !app_nil_r. reflexivity.
  - destruct (item_cover_quiet net env game st) as (url & evs1 & E & Hq & Hb).
    rewrite (process_from_cons _ _ _ _ _ _ _ _ _ E).
    cbn [List.length] in Hlen.
    destruct (IH (S i) (after_item env len i game url (extend st evs1)))
      as (evs & outs & n & Er & Hp); [lia|].
    rewrite Er. unfold after_item, extend, set_count. cbn.
    rewrite pause_delay_of.
    destruct rest as [|game' rest'].
    + inversion Hp as [Hevs | |]. clear Hp.
      replace (Nat.ltb i (len - 1)) with false
        by (symmetry; apply Nat.ltb_ge; cbn in Hlen; lia).
      exists evs1, (with_cover game url :: outs), n. split.
      * rewrite !app_nil_r, <- app_assoc. reflexivity.
      * apply paced_last; assumption.
    + replace (Nat.ltb i (len - 1)) with true
        by (symmetry; apply Nat.ltb_lt; cbn in Hlen; lia).
      exists (evs1 ++ EvDelay (delay_of (activeApi env)) :: evs),
        (with_cover game url :: outs), n. split.
      * rewrite <- !app_assoc. reflexivity.
      * apply paced_more; assumption.
Qed.

Lemma paced_delays api n evs :
  paced api n evs ->
  filter is_delay evs = repeat (EvDelay (delay_of api)) (n - 1)
  /\ List.length (network_calls evs) <= n * calls_bound api
  /\ forallb (fun e => negb (is_toast e)) evs = true.
Proof.
  assert (Hquiet : forall block, forallb quiet block = true ->
            filter is_delay block = []
            /\ forallb (fun e => negb (is_toast e)) block = true).
  { induction block as [|e block IH]; [split; reflexivity|].
    cbn. intro H. apply andb_true_iff in H. destruct H as [He Hb].
    destruct (IH Hb) as [IH1 IH2]. rewrite IH2.
    destruct e; try discriminate; split; assumption || reflexivity. }
  induction 1 as [|block Hq Hb|block n rest Hq Hb Hp IH].
  - repeat split; cbn; lia || reflexivity.
  - destruct (Hquiet block Hq) as [Hd Ht]. cbn. repeat split; try assumption. lia.
  - destruct (Hquiet block Hq) as [Hd Ht]. destruct IH as (IH1 & IH2 & IH3).
    split; [|split].
    + rewrite filter_app, Hd. cbn [app filter is_delay]. rewrite IH1.
      cbn. rewrite Nat.sub_0_r. reflexivity.
    + unfold network_calls in *. rewrite filter_app, length_app. cbn [filter is_fetch].
      cbn [Nat.mul] in *. lia.
    + rewrite forallb_app, Ht. cbn. exact IH3.
Qed.

(** The events of a run on a valid input that passes the credential check:
    those of the loop, then the toast. *)
Lemma processGames_paced net env st items :
  inputJson env = ParsedArray items ->
  well_formed items ->
  credentials_present env ->
  exists evs,
    events (snd (processGames net env st))
    = events st
      ++ evs
      ++ [EvToast "Processing Complete!"
            ("Found covers for "
               ++ toString (Z.of_nat (List.length
                    (filter (fun g => field_truthy (imageUrl g))
                       (outputJson (ui (snd (processGames net env st)))))))
               ++ " out of " ++ toString (Z.of_nat (List.length items)) ++ " games.")%string
            false]
    /\ paced (activeApi env) (List.length items) evs
    /\ List.length (outputJson (ui (snd (processGames net env st)))) = List.length items.
Proof.
  intros Hin Hwf Hc.
  rewrite (processGames_complete net env st items Hin Hwf Hc).
  destruct (process_from_paced net env (List.length items) items 0
              (loop_entry (List.length items) st) eq_refl)
    as (evs & outs & n & E & Hp).
  destruct (process_from_spec net env (List.length items) Hc items 0
              (loop_entry (List.length items) st))
    as (outs' & evs' & n' & E' & Hall & _).
  assert (Hlen : List.length outs = List.length items).
  { rewrite E in E'. injection E' as _ _ Ho. cbn in Ho. subst outs'.
    symmetry. eapply Forall2_length. eassumption. }
  rewrite E. exists evs.
  destruct st as [ev [o p e c t] g]. run_m. cbn [app].
  rewrite Hlen. repeat split; try assumption.
  rewrite <- app_assoc. reflexivity.
Qed.

Lemma pause_separator env len i rest :
  i + S (List.length rest) = len ->
  pause env len i = separator env rest.
Proof.
  intro Hlen. rewrite pause_delay_of. unfold separator.
  destruct rest as [|g rest].
  - replace (Nat.ltb i (len - 1)) with false
      by (symmetry; apply Nat.ltb_ge; cbn in Hlen; lia).
    reflexivity.
  - replace (Nat.ltb i (len - 1)) with true
      by (symmetry; apply Nat.ltb_lt; cbn in Hlen; lia).
    reflexivity.
Qed.

Lemma process_from_lookups net env len :
  forall rest i st,
    i + List.length rest = len ->
    exists evs,
      events (snd (process_from net env len i rest st)) = events st ++ evs
      /\ lookups net env i st rest evs.
Proof.
  induction rest as [|game rest IH]; intros i st Hlen.
  - exists []. split; [cbn; symmetry; apply app_nil_r | constructor].
  - destruct (item_cover_quiet net env game st) as (url & block & E & _).
    rewrite (process_from_cons _ _ _ _ _ _ _ _ _ E).
    cbn [List.length] in Hlen.
    assert (Hafter : after_item env len i game url (extend st block)
                     = after_lookup env i game url rest (extend st block)).
    { unfold after_item, after_lookup, set_count.
      rewrite (pause_separator env len i rest Hlen). reflexivity. }
    rewrite Hafter.
    destruct (IH (S i) (after_lookup env i game url rest (extend st block)))
      as (evs & Hev & Hl); [lia|].
    exists (block ++ separator env rest ++ evs). split.
    + rewrite Hev. unfold after_lookup, extend. cbn [events].
      rewrite <- !app_assoc. reflexivity.
    + rewrite item_cover_dispatch in E.
      eapply lookups_item; eassumption.
Qed.

(** X13. In a run on a valid input that passes the credential check, the
    events are, for each item in input order, exactly those of the
    dispatcher's lookup of that item (its title, its systemName, the
    credentials entered), run after all that came before; each lookup is
    within the provider's request bound, one pause separates an item from the
    next (1000 ms with RAWG and TheGamesDB, 250 ms with IGDB), none follows
    the last, and the closing toast ends the run. *)
Theorem X13_run_is_paced net env st items :
  inputJson env = ParsedArray items ->
  well_formed items ->
  credentials_present env ->
  exists evs toast,
    events (snd (processGames net env st)) = events st ++ evs ++ [toast]
    /\ is_toast toast = true
    /\ paced (activeApi env) (List.length items) evs
    /\ lookups net env 0 (loop_entry (List.length items) st) items evs.
Proof.
  intros Hin Hwf Hc.
  destruct (processGames_paced net env st items Hin Hwf Hc) as (evs & Hev & Hp & _).
  exists evs. eexists. split; [exact Hev|]. split; [reflexivity|]. split; [exact Hp|].
  destruct (process_from_lookups net env (List.length items) items 0
              (loop_entry (List.length items) st) eq_refl) as (evs' & Hev' & Hl).
  rewrite (processGames_complete net env st items Hin Hwf Hc) in Hev.
  unfold completed in Hev. cbn [snd events] in Hev.
  rewrite Hev' in Hev. cbn [loop_entry events] in Hev.
  rewrite <- app_assoc in Hev.
  apply app_inv_head in Hev. apply app_inj_tail in Hev. destruct Hev as [Hev _].
  rewrite <- Hev. exact Hl.
Qed.

Lemma X13_run_is_paced_witness :
  exists evs toast,
    events (snd (processGames Fixture.igdb_net
                   (Fixture.env_igdb [Fixture.foo; Fixture.bar; Fixture.baz])
                   Fixture.st0))
    = events Fixture.st0 ++ evs ++ [toast]
    /\ is_toast toast = true
    /\ paced igdb 3 evs
    /\ lookups Fixture.igdb_net
         (Fixture.env_igdb [Fixture.foo; Fixture.bar; Fixture.baz]) 0
         (loop_entry 3 Fixture.st0) [Fixture.foo; Fixture.bar; Fixture.baz] evs.
Proof.
  apply (X13_run_is_paced Fixture.igdb_net
           (Fixture.env_igdb [Fixture.foo; Fixture.bar; Fixture.baz]) Fixture.st0
           [Fixture.foo; Fixture.bar; Fixture.baz]).
  - reflexivity.
  - repeat constructor; discriminate.
  - split; discriminate.
Defined.

(** X14. A run on a valid input of n items that passes the credential check
    pauses exactly n - 1 times (not at all for an empty or one-item input),
    each time for the provider's delay, and sends at most n requests with
    RAWG and at most 2n with TheGamesDB or IGDB. *)
Theorem X14_pauses_and_requests_of_a_run net env st items :
  inputJson env = ParsedArray items ->
  well_formed items ->
  credentials_present env ->
  filter is_delay (events (snd (processGames net env st)))
  = filter is_delay (events st)
    ++ repeat (EvDelay (delay_of (activeApi env))) (List.length items - 1)
  /\ List.length (network_calls (events (snd (processGames net env st))))
     <= List.length (network_calls (events st))
        + List.length items * calls_bound (activeApi env).
Proof.
  intros Hin Hwf Hc.
  destruct (processGames_paced net env st items Hin Hwf Hc) as (evs & Hev & Hp & _).
  destruct (paced_delays _ _ _ Hp) as (Hd & Hn & _).
  rewrite Hev. split.
  - rewrite !filter_app, Hd. cbn. rewrite app_nil_r. reflexivity.
  - unfold network_calls in *. rewrite !filter_app, !length_app. cbn. lia.
Qed.

Lemma X14_pauses_and_requests_of_a_run_witness :
  filter is_delay
    (events (snd (processGames Fixture.rawg_net
                    (Fixture.env_rawg [Fixture.foo; Fixture.bar; Fixture.baz])
                    Fixture.st0)))
  = [EvDelay 1000; EvDelay 1000]
  /\ List.length
       (network_calls
          (events (snd (processGames Fixture.rawg_net
                          (Fixture.env_rawg [Fixture.foo; Fixture.bar; Fixture.baz])
                          Fixture.st0)))) <= 3.
Proof.
  apply (X14_pauses_and_requests_of_a_run Fixture.rawg_net
           (Fixture.env_rawg [Fixture.foo; Fixture.bar; Fixture.baz]) Fixture.st0
           [Fixture.foo; Fixture.bar; Fixture.baz]).
  - reflexivity.
  - repeat constructor; discriminate.
  - exact I.
Defined.

(** X15. A run on a valid input that passes the credential check ends with
    one toast, not destructive, that reports how many items of the output
    have a cover, out of the number of items of the input. *)
Theorem X15_summary_counts_the_covers net env st items :
  inputJson env = ParsedArray items ->
  well_formed items ->
  credentials_present env ->
  exists evs,
    events (snd (processGames net env st))
    = events st
      ++ evs
      ++ [EvToast "Processing Complete!"
            ("Found covers for "
               ++ toString (Z.of_nat (List.length
                    (filter (fun g => field_truthy (imageUrl g))
                       (outputJson (ui (snd (processGames net env st)))))))
               ++ " out of " ++ toString (Z.of_nat (List.length items)) ++ " games.")%string
            false]
    /\ forallb (fun e => negb (is_toast e)) evs = true.
Proof.
  intros Hin Hwf Hc.
  destruct (processGames_paced net env st items Hin Hwf Hc) as (evs & Hev & Hp & _).
  exists evs. split; [exact Hev|]. apply (paced_delays _ _ _ Hp).
Qed.

Lemma X15_summary_counts_the_covers_witness :
  exists evs,
    events (snd (processGames Fixture.rawg_net
                   (Fixture.env_rawg [Fixture.foo; Fixture.bar; Fixture.baz])
                   Fixture.st0))
    = events Fixture.st0
      ++ evs
      ++ [EvToast "Processing Complete!" "Found covers for 1 out of 3 games." false]
    /\ forallb (fun e => negb (is_toast e)) evs = true.
Proof.
  apply (X15_summary_counts_the_covers Fixture.rawg_net
           (Fixture.env_rawg [Fixture.foo; Fixture.bar; Fixture.baz]) Fixture.st0
           [Fixture.foo; Fixture.bar; Fixture.baz]).
  - reflexivity.
  - repeat constructor; discriminate.
  - exact I.
Defined.

(** ** Every run *)

Lemma credentials_dec env : credentials_missing env \/ credentials_present env.
Proof.
  unfold credentials_missing, credentials_present.
  destruct (activeApi env).
  - right. exact I.
  - destruct (tgdbApiKey env); [left; reflexivity | right; discriminate].
  - destruct (igdbClientId env); [left; left; reflexivity|].
    destruct (igdbClientSecret env); [left; right; reflexivity|].
    right. split; discriminate.
Qed.

Lemma credentials_not_both env :
  credentials_missing env -> credentials_present env -> False.
Proof.
  unfold credentials_missing, credentials_present.
  destruct (activeApi env); [tauto | congruence | intros [H | H] [H1 H2]; congruence].
Qed.

Lemma validate_well_formed items : validate items = Ok tt -> well_formed items.
Proof.
  induction items as [|g items IH]; intro H; [constructor|].
  cbn [validate] in H.
  destruct (truthy (title g)) eqn:Ht; [|discriminate].
  destruct (truthy (systemName g)) eqn:Hs; [|discriminate].
  constructor; [|exact (IH H)].
  split; apply truthy_true_iff; assumption.
Qed.

Lemma validate_error items e :
  validate items = Throw e -> error_message e <> EmptyString.
Proof.
  induction items as [|g items IH]; [discriminate|].
  cbn [validate].
  destruct (negb (truthy (title g)) || negb (truthy (systemName g))).
  - intro H. injection H as <-. discriminate.
  - exact IH.
Qed.

Lemma input_dec env :
  valid_input env
  \/ exists e,
       match parse_games (inputJson env) with
       | Ok items => validate items
       | Throw e' => Throw e'
       end = Throw e
       /\ error_message e <> EmptyString.
Proof.
  unfold valid_input.
  destruct (inputJson env) as [| |items] eqn:Ein; cbn [parse_games].
  - right. eexists. split; [reflexivity | discriminate].
  - right. eexists. split; [reflexivity | discriminate].
  - destruct (validate items) as [[]|e] eqn:Ev.
    + left. exists items. split; [reflexivity | apply validate_well_formed; exact Ev].
    + right. exists e. split; [reflexivity | eapply validate_error; exact Ev].
Qed.

Lemma processGames_without_credentials net env st :
  credentials_missing env ->
  exists t d message,
    message <> EmptyString
    /\ processGames net env st = (Ok tt, aborted st t d message (totalCount (ui st))).
Proof.
  unfold credentials_missing, processGames, aborted. intro Hm.
  destruct st as [ev [o p e c t] g].
  destruct (activeApi env); [contradiction | |].
  - rewrite Hm. cbn [is_thegamesdb truthy negb andb]. run_m.
    do 3 eexists. split; [|reflexivity]. discriminate.
  - assert (Hb : negb (truthy (igdbClientId env)) || negb (truthy (igdbClientSecret env))
                 = true).
    { destruct Hm as [-> | ->]; cbn; [reflexivity | apply orb_true_r]. }
    cbn [is_thegamesdb is_igdb andb]. rewrite Hb. run_m.
    do 3 eexists. split; [|reflexivity]. discriminate.
Qed.

Lemma processGames_invalid_input net env st e :
  credentials_present env ->
  match parse_games (inputJson env) with
  | Ok items => validate items
  | Throw e' => Throw e'
  end = Throw e ->
  processGames net env st
  = (Ok tt, aborted st "Error" (error_message e) (error_message e) 0).
Proof.
  intros Hc He.
  destruct (credential_checks_pass env Hc) as [C1 C2].
  unfold processGames, aborted. rewrite C1, C2.
  destruct st as [ev [o p er c t] g].
  destruct (parse_games (inputJson env)) as [items|e'] eqn:Ep.
  - run_m. rewrite He. run_m. reflexivity.
  - injection He as ->. run_m. reflexivity.
Qed.

(** The three ways a run can go. *)
Lemma processGames_cases net env st :
  (credentials_present env /\ valid_input env
   /\ exists items,
        inputJson env = ParsedArray items /\ well_formed items
        /\ processGames net env st
           = (Ok tt,
              completed (snd (process_from net env (List.length items) 0 items
                                (loop_entry (List.length items) st)))))
  \/ ((credentials_missing env \/ ~ valid_input env)
      /\ exists t d message total,
           message <> EmptyString
           /\ processGames net env st = (Ok tt, aborted st t d message total)).
Proof.
  destruct (credentials_dec env) as [Hm | Hc].
  - right. split; [left; exact Hm|].
    destruct (processGames_without_credentials net env st Hm) as (t & d & m & Hne & E).
    exists t, d, m, (totalCount (ui st)). split; assumption.
  - destruct (input_dec env) as [Hv | (e & He & Hne)].
    + left. split; [exact Hc|]. split; [exact Hv|].
      destruct Hv as (items & Hin & Hwf). exists items.
      split; [exact Hin|]. split; [exact Hwf|].
      apply processGames_complete; assumption.
    + right. split.
      * right. intros (items & Hin & Hwf). rewrite Hin in He. cbn [parse_games] in He.
        rewrite (validate_ok items Hwf) in He. discriminate.
      * do 4 eexists. split; [exact Hne|].
        apply processGames_invalid_input; eassumption.
Qed.

Lemma completed_error net env st items :
  credentials_present env ->
  error (ui (completed (snd (process_from net env (List.length items) 0 items
                               (loop_entry (List.length items) st))))) = EmptyString.
Proof.
  intro Hc.
  destruct (process_from_spec net env (List.length items) Hc items 0
              (loop_entry (List.length items) st)) as (outs & evs & n & E & _).
  rewrite E. reflexivity.
Qed.

(** X16. Whatever the input, the credentials and the network, [processGames]
    returns without throwing and leaves the component idle: [isProcessing] is
    false and [processedCount] is 0. *)
Theorem X16_run_always_ends_idle net env st :
  fst (processGames net env st) = Ok tt
  /\ isProcessing (ui (snd (processGames net env st))) = false
  /\ processedCount (ui (snd (processGames net env st))) = 0.
Proof.
  destruct (processGames_cases net env st)
    as [(_ & _ & items & _ & _ & E) | (_ & t & d & m & total & _ & E)];
    rewrite E; repeat split.
Qed.

(** X17. After a run the error is empty exactly when the selected provider's
    credentials were present and the input was an array whose elements all
    have a title and a systemName; in every other case it is set. *)
Theorem X17_error_empty_iff_run_completed net env st :
  error (ui (snd (processGames net env st))) = EmptyString
  <-> credentials_present env /\ valid_input env.
Proof.
  destruct (processGames_cases net env st)
    as [(Hc & Hv & items & _ & _ & E) | (Hbad & t & d & m & total & Hne & E)];
    rewrite E; cbn [snd].
  - split; [intros _; split; assumption|]. intros _. apply completed_error. exact Hc.
  - split.
    + intro H. cbn in H. contradiction.
    + intros [Hc Hv]. exfalso. destruct Hbad as [Hm | Hnv].
      * exact (credentials_not_both env Hm Hc).
      * exact (Hnv Hv).
Qed.

(** X18. A run that ends with the error set (missing credentials, input
    that does not parse, is not an array, or has an element without title or
    systemName) has sent no request and has left the output list as it was;
    its only event is one destructive toast. *)
Theorem X18_aborted_run_changes_nothing net env st :
  error (ui (snd (processGames net env st))) <> EmptyString ->
  network_calls (events (snd (processGames net env st))) = network_calls (events st)
  /\ outputJson (ui (snd (processGames net env st))) = outputJson (ui st)
  /\ exists t d, events (snd (processGames net env st)) = events st ++ [EvToast t d true].
Proof.
  destruct (processGames_cases net env st)
    as [(Hc & _ & items & _ & _ & E) | (_ & t & d & m & total & _ & E)];
    rewrite E; cbn [snd].
  - intro H. exfalso. apply H. apply completed_error. exact Hc.
  - intros _. unfold aborted. cbn. repeat split.
    + unfold network_calls. rewrite filter_app. cbn. apply app_nil_r.
    + do 2 eexists. reflexivity.
Qed.

Lemma X18_aborted_run_changes_nothing_witness :
  network_calls
    (events (snd (processGames Fixture.rawg_net
                    (Fixture.env_rawg [Fixture.foo; mkGameItem "Bar" EmptyString Absent])
                    Fixture.st_earlier)))
  = network_calls (events Fixture.st_earlier)
  /\ outputJson
       (ui (snd (processGames Fixture.rawg_net
                   (Fixture.env_rawg [Fixture.foo; mkGameItem "Bar" EmptyString Absent])
                   Fixture.st_earlier)))
     = outputJson (ui Fixture.st_earlier)
  /\ exists t d,
       events (snd (processGames Fixture.rawg_net
                      (Fixture.env_rawg [Fixture.foo; mkGameItem "Bar" EmptyString Absent])
                      Fixture.st_earlier))
       = events Fixture.st_earlier ++ [EvToast t d true].
Proof.
  apply (X18_aborted_run_changes_nothing Fixture.rawg_net
           (Fixture.env_rawg [Fixture.foo; mkGameItem "Bar" EmptyString Absent])
           Fixture.st_earlier).
  vm_compute. discriminate.
Defined.

(** ** What the input's own [imageUrl] does *)

Lemma validate_same l l' : Forall2 same_game l l' -> validate l = validate l'.
Proof.
  induction 1 as [|g g' l l' [Ht Hs] _ IH]; [reflexivity|].
  cbn [validate]. rewrite Ht, Hs, IH. reflexivity.
Qed.

Lemma process_from_same net env p1 p2 len l l' :
  Forall2 same_game l l' ->
  forall i st,
    process_from net (with_input env p1) len i l st
    = process_from net (with_input env p2) len i l' st.
Proof.
  induction 1 as [|g g' l l' [Ht Hs] _ IH]; intros i st; [reflexivity|].
  destruct (item_cover_quiet net (with_input env p2) g' st) as (url & evs & E' & _).
  assert (E : item_cover net (with_input env p1) g st = (Ok url, extend st evs)).
  { rewrite <- E'. unfold item_cover. cbn [activeApi with_input rawgApiKey tgdbApiKey
      igdbClientId igdbClientSecret]. rewrite Ht, Hs. reflexivity. }
  rewrite (process_from_cons _ _ _ _ _ _ _ _ _ E), (process_from_cons _ _ _ _ _ _ _ _ _ E').
  rewrite IH. unfold after_item, pause, with_cover. cbn [activeApi with_input].
  rewrite Ht, Hs. reflexivity.
Qed.

(** X19. An [imageUrl] that an input element already has plays no part: two
    inputs whose elements agree, index by index, on title and systemName give
    the same run (same requests, same output, same final state), so a cover
    from an earlier run is never kept and never sent. *)
Theorem X19_input_imageUrl_is_ignored net env st items items' :
  Forall2 same_game items items' ->
  processGames net (with_input env (ParsedArray items)) st
  = processGames net (with_input env (ParsedArray items')) st.
Proof.
  intro Hsame.
  unfold processGames.
  cbn [activeApi with_input rawgApiKey tgdbApiKey igdbClientId igdbClientSecret inputJson
       parse_games].
  destruct (is_thegamesdb (activeApi env) && negb (truthy (tgdbApiKey env)));
    [reflexivity|].
  destruct (is_igdb (activeApi env)
            && (negb (truthy (igdbClientId env)) || negb (truthy (igdbClientSecret env))));
    [reflexivity|].
  destruct st as [ev [o p e c t] g].
  run_m.
  rewrite <- (validate_same _ _ Hsame).
  destruct (validate items) as [[]|err]; [|reflexivity].
  rewrite <- (Forall2_length Hsame).
  rewrite (process_from_same net env (ParsedArray items) (ParsedArray items')
             (List.length items) items items' Hsame).
  reflexivity.
Qed.

Lemma X19_input_imageUrl_is_ignored_witness :
  processGames Fixture.rawg_net
    (with_input (Fixture.env_rawg []) (ParsedArray [Fixture.foo; Fixture.bar])) Fixture.st0
  = processGames Fixture.rawg_net
      (with_input (Fixture.env_rawg [])
         (ParsedArray [mkGameItem "Foo" "Nintendo GameCube" (Str "https://old/foo.jpg");
                       mkGameItem "Bar" "Nintendo 64" (Str EmptyString)]))
      Fixture.st0.
Proof.
  apply (X19_input_imageUrl_is_ignored Fixture.rawg_net (Fixture.env_rawg []) Fixture.st0).
  repeat constructor.
Defined.

(** ** Where requests go *)

Lemma fetchGameCover_hosts net title sys api key secret st :
  wp (fetchGameCover net title sys api key secret) st
     (item_post st (fun url evs => forallb (to_provider api) evs = true)).
Proof.
  rewrite <- (extend_nil st) at 1.
  unfold fetchGameCover.
  destruct api;
    unfold fetchGameCoverFromRAWG, fetchGameCoverFromTheGamesDB, fetchGameCoverFromIGDB,
      getIGDBAccessToken; cbv zeta.
  all: repeat wp_step.
  all: wp_leaf; reflexivity.
Qed.

(** X21. Whatever the title, the platform name, the credentials and the
    responses, a lookup sends requests to the selected provider only: with
    RAWG to api.rawg.io, with TheGamesDB to api.thegamesdb.net, with IGDB to
    id.twitch.tv and api.igdb.com. *)
Theorem X21_lookup_calls_its_provider_only net title sys api key secret st :
  exists url evs,
    fetchGameCover net title sys api key secret st = (Ok url, extend st evs)
    /\ forallb (to_provider api) evs = true.
Proof. apply wp_item_post. apply fetchGameCover_hosts. Qed.

Lemma process_from_forallb net env len (P : Event -> bool) :
  (forall game st,
      exists url evs,
        item_cover net env game st = (Ok url, extend st evs) /\ forallb P evs = true) ->
  (forall ms, P (EvDelay ms) = true) ->
  forall rest i st,
  exists evs,
    events (snd (process_from net env len i rest st)) = events st ++ evs
    /\ forallb P evs = true.
Proof.
  intros Hitem Hdelay rest. induction rest as [|game rest IH]; intros i st.
  - exists []. split; [cbn; symmetry; apply app_nil_r | reflexivity].
  - destruct (Hitem game st) as (url & evs1 & E & HP).
    rewrite (process_from_cons _ _ _ _ _ _ _ _ _ E).
    destruct (IH (S i) (after_item env len i game url (extend st evs1)))
      as (evs & Hev & HP').
    exists (evs1 ++ pause env len i ++ evs). split.
    + rewrite Hev. unfold after_item, extend. cbn [events].
      rewrite <- !app_assoc. reflexivity.
    + rewrite !forallb_app, HP, HP'. unfold pause.
      destruct (Nat.ltb i (len - 1)); cbn; rewrite ?Hdelay; reflexivity.
Qed.

(** X22. Whatever the input, the credentials and the responses, every
    request of a run goes to a host of the selected provider. *)
Theorem X22_run_calls_its_provider_only net env st :
  exists evs,
    events (snd (processGames net env st)) = events st ++ evs
    /\ forallb (to_provider (activeApi env)) evs = true.
Proof.
  destruct (processGames_cases net env st)
    as [(_ & _ & items & _ & _ & E) | (_ & t & d & m & total & _ & E)];
    rewrite E; cbn [snd].
  - destruct (process_from_forallb net env (List.length items)
                (to_provider (activeApi env))
                (fun game st0 =>
                   eq_ind_r (fun m => exists url evs, m st0 = (Ok url, extend st0 evs)
                                       /\ forallb (to_provider (activeApi env)) evs = true)
                     (wp_item_post _ _ _ (fetchGameCover_hosts net (title game)
                        (systemName game) (activeApi env) (env_key env) (env_secret env)
                        st0))
                     (item_cover_dispatch net env game))
                (fun _ => eq_refl)
                items 0 (loop_entry (List.length items) st)) as (evs & Hev & HP).
    eexists. unfold completed. cbn [events]. rewrite Hev. cbn [loop_entry events].
    rewrite <- app_assoc. split; [reflexivity|].
    rewrite forallb_app, HP. reflexivity.
  - eexists. unfold aborted. cbn [events]. split; reflexivity.
Qed.
